(** * deno-effect: the dinosaur data pipeline

    A shallow embedding of the two request handlers of the repository,
    [routes/index.tsx] (the list endpoint, [GET /]) and
    [routes/[dinosaur].tsx] (the detail endpoint, [GET /<name>]), and of the
    part of JavaScript and of the [effect] library they rely on.

    - JavaScript values are an inductive type; an object is a finite map from
      property names to values.
    - Synchronous JavaScript code is a computation [Js A] over a [World]: it
      may throw, and every call of a built-in function is recorded in the
      world's call trace.
    - An [Effect.Effect E A] is run by a fibre to an [Exit]: a success, a
      failure in the typed error channel, or a defect (an exception thrown
      where the library does not expect one).
    - [JSON.parse] and [String.prototype.toLowerCase] belong to the engine;
      they are the fields of a [Host], and every theorem holds for every
      host. *)

From Stdlib Require Import Floats.SpecFloat Strings.Ascii.
From stdpp Require Import base strings list gmap.

Set Warnings "-register-all".

(** ** JavaScript values *)

(** The values [JSON.parse] builds, and [undefined], which property reads and
    [Array.prototype.find] add. A number is a binary64 float. *)
Inductive JSValue : Type :=
| JUndefined
| JNull
| JBool (b : bool)
| JNumber (x : spec_float)
| JString (s : string)
| JArray (items : list JSValue)
| JObject (props : gmap string JSValue).

(** What a [throw] carries: the engine's own [TypeError], or an error raised
    by the host ([Deno.readTextFile], [JSON.parse]). *)
Inductive JSError : Type :=
| TypeError
| HostError (name message : string).

(** The [typeof] operator. *)
Definition js_typeof (v : JSValue) : string :=
  match v with
  | JUndefined => "undefined"
  | JNull => "object"
  | JBool _ => "boolean"
  | JNumber _ => "number"
  | JString _ => "string"
  | JArray _ => "object"
  | JObject _ => "object"
  end.

(** [a === b] on two strings. *)
Definition strict_eq_string (a b : string) : bool := bool_decide (a = b).

(** [v !== null]. *)
Definition not_null (v : JSValue) : bool :=
  match v with JNull => false | _ => true end.

(** A member read [v.key] for the two keys the source reads, [name] and
    [description]. Neither [Object.prototype] nor the prototype of arrays or
    of a primitive's wrapper defines them, so only an own property of an
    object answers; reading a member of [null] or [undefined] throws. *)
Definition js_get (v : JSValue) (key : string) : JSError + JSValue :=
  match v with
  | JUndefined | JNull => inl TypeError
  | JObject props => inr (default JUndefined (props !! key))
  | _ => inr JUndefined
  end.

(** [key in v], for the same two keys: it throws unless [v] is an object
    (arrays included). *)
Definition js_in (key : string) (v : JSValue) : JSError + bool :=
  match v with
  | JObject props => inr (bool_decide (is_Some (props !! key)))
  | JArray _ => inr false
  | _ => inl TypeError
  end.

(** ** The world: files and the trace of built-in calls *)

(** An argument of [console.error]: a string, a caught exception, or an
    instance of one of the handlers' error classes (its [_tag] and its
    field). *)
Inductive ConsoleArg : Type :=
| ArgString (s : string)
| ArgThrown (e : JSError)
| ArgInstance (tag : string) (field : ConsoleArg).

(** One event per call of a built-in function or method. *)
Inductive Event : Type :=
| CallReadTextFile (path : string)
| CallJSONParse (text : string)
| CallIsArray (v : JSValue)
| CallEvery (receiver : JSValue)
| CallFind (receiver : JSValue)
| CallToLowerCase (receiver : JSValue)
| CallConsoleError (args : list ConsoleArg).

(** [files] answers [Deno.readTextFile]: the text, or the error the promise
    rejects with. [trace] grows at its end. *)
Record World : Type := {
  files : string -> JSError + string;
  trace : list Event
}.

Definition record (e : Event) (w : World) : World :=
  {| files := files w; trace := trace w ++ [e] |}.

(** The engine's pure built-ins. *)
Record Host : Type := {
  JSON_parse : string -> JSError + JSValue;
  toLowerCase : string -> string
}.

(** ** Synchronous JavaScript code *)

Definition Js (A : Type) : Type := World -> World * (JSError + A).

Definition js_return {A} (a : A) : Js A := fun w => (w, inr a).

Definition js_throw {A} (e : JSError) : Js A := fun w => (w, inl e).

Definition js_bind {A B} (c : Js A) (k : A -> Js B) : Js B :=
  fun w =>
    match c w with
    | (w', inr a) => k a w'
    | (w', inl e) => (w', inl e)
    end.

(** An expression without calls: it only evaluates or throws. *)
Definition js_expr {A} (r : JSError + A) : Js A := fun w => (w, r).

Notation "'let!' x ':=' c 'in' k" := (js_bind c (fun x => k))
  (at level 10, x name, c at level 100, k at level 200).

(** [a && b] on booleans: [b] is evaluated only when [a] is true. *)
Definition js_and (a b : Js bool) : Js bool :=
  let! x := a in if x then b else js_return false.

Infix "&&!" := js_and (at level 41, right associativity).

(** *** Built-in functions and methods *)

Definition Deno_readTextFile (path : string) : Js string :=
  fun w => (record (CallReadTextFile path) w, files w path).

Definition JSON_parse_call (host : Host) (text : string) : Js JSValue :=
  fun w => (record (CallJSONParse text) w, JSON_parse host text).

Definition console_error (args : list ConsoleArg) : Js unit :=
  fun w => (record (CallConsoleError args) w, inr tt).

Definition Array_isArray (v : JSValue) : Js bool :=
  fun w => (record (CallIsArray v) w,
            inr match v with JArray _ => true | _ => false end).

(** [receiver.toLowerCase()]: only a string has the method. *)
Definition call_toLowerCase (host : Host) (receiver : JSValue) : Js string :=
  match receiver with
  | JString s =>
      fun w => (record (CallToLowerCase receiver) w, inr (toLowerCase host s))
  | _ => js_throw TypeError
  end.

(** The loop of [Array.prototype.every]: stop at the first element the
    callback rejects. *)
Fixpoint every_loop (callback : JSValue -> Js bool) (items : list JSValue)
  : Js bool :=
  match items with
  | [] => js_return true
  | x :: rest =>
      let! ok := callback x in
      if ok then every_loop callback rest else js_return false
  end.

(** [receiver.every(callback)]; the source calls it on an array only. *)
Definition call_every (receiver : JSValue) (callback : JSValue -> Js bool)
  : Js bool :=
  match receiver with
  | JArray items =>
      fun w => every_loop callback items (record (CallEvery receiver) w)
  | _ => js_throw TypeError
  end.

(** The loop of [Array.prototype.find]: the first element the callback
    accepts, [undefined] when there is none. *)
Fixpoint find_loop (callback : JSValue -> Js bool) (items : list JSValue)
  : Js JSValue :=
  match items with
  | [] => js_return JUndefined
  | x :: rest =>
      let! found := callback x in
      if found then js_return x else find_loop callback rest
  end.

(** [receiver.find(callback)]: a value parsed from JSON has a callable
    [find] only when it is an array. *)
Definition call_find (receiver : JSValue) (callback : JSValue -> Js bool)
  : Js JSValue :=
  match receiver with
  | JArray items =>
      fun w => find_loop callback items (record (CallFind receiver) w)
  | _ => js_throw TypeError
  end.

(** ** The [effect] library *)

(** Why an effect did not succeed: [Fail] is a failure in the typed error
    channel, [Die] a defect. *)
Inductive Cause (E : Type) : Type :=
| Fail (error : E)
| Die (defect : JSError).

Arguments Fail {E} error.
Arguments Die {E} defect.

Inductive Exit (E A : Type) : Type :=
| Success (value : A)
| Failure (cause : Cause E).

Arguments Success {E A} value.
Arguments Failure {E A} cause.

(** How the promise of [Effect.runPromise] settles. *)
Inductive Settled (E A : Type) : Type :=
| Resolved (value : A)
| Rejected (reason : Cause E).

Arguments Resolved {E A} value.
Arguments Rejected {E A} reason.

(** The error [Effect.fromNullable] fails with. *)
Inductive NoSuchElementException : Type := NoSuchElement.

Module Effect.

(** An effect is what a fibre does with it: from a world to the world
    after and the exit. *)
Definition Effect (E A : Type) : Type := World -> World * Exit E A.

Definition succeed {E A} (a : A) : Effect E A := fun w => (w, Success a).

Definition fail {E A} (e : E) : Effect E A := fun w => (w, Failure (Fail e)).

(** [Effect.try({ try, catch })]: what [try] throws is mapped by [catch]
    into the error channel. *)
Definition try_ {E A} (try : Js A) (catch : JSError -> E) : Effect E A :=
  fun w =>
    match try w with
    | (w', inr a) => (w', Success a)
    | (w', inl e) => (w', Failure (Fail (catch e)))
    end.

(** [Effect.tryPromise({ try, catch })]: the same for a promise; [inl] is
    its rejection. *)
Definition tryPromise {E A} (try : Js A) (catch : JSError -> E)
  : Effect E A := try_ try catch.

(** [Effect.suspend(() => ...)], and any code the fibre runs to obtain the
    next effect (the body of a generator between two [yield*], the
    function given to [catchAll]): what that code throws is a defect. *)
Definition suspend {E A} (code : Js (Effect E A)) : Effect E A :=
  fun w =>
    match code w with
    | (w', inr effect) => effect w'
    | (w', inl e) => (w', Failure (Die e))
    end.

Definition flatMap {E A B} (m : Effect E A) (k : A -> Effect E B)
  : Effect E B :=
  fun w =>
    match m w with
    | (w', Success a) => k a w'
    | (w', Failure c) => (w', Failure c)
    end.

(** [Effect.gen(function* (_) { ... })]: the fibre runs the body of the
    generator, each [yield*] being a [flatMap]. *)
Definition gen {E A} (body : Effect E A) : Effect E A := body.

(** [Effect.fromNullable(v)]. *)
Definition fromNullable (v : JSValue)
  : Effect NoSuchElementException JSValue :=
  match v with
  | JUndefined | JNull => fail NoSuchElement
  | _ => succeed v
  end.

Definition mapError {E E' A} (m : Effect E A) (f : E -> E') : Effect E' A :=
  fun w =>
    match m w with
    | (w', Success a) => (w', Success a)
    | (w', Failure (Fail e)) => (w', Failure (Fail (f e)))
    | (w', Failure (Die d)) => (w', Failure (Die d))
    end.

(** [Effect.catchAll]: the handler sees the failures of the error channel
    and no defect. *)
Definition catchAll {E E' A} (m : Effect E A)
    (handler : E -> Js (Effect E' A)) : Effect E' A :=
  fun w =>
    match m w with
    | (w', Success a) => (w', Success a)
    | (w', Failure (Fail e)) => suspend (handler e) w'
    | (w', Failure (Die d)) => (w', Failure (Die d))
    end.

(** [Effect.runPromise]: the promise resolves with the success and rejects
    with anything else. *)
Definition runPromise {E A} (m : Effect E A) : World -> World * Settled E A :=
  fun w =>
    match m w with
    | (w', Success a) => (w', Resolved a)
    | (w', Failure c) => (w', Rejected c)
    end.

End Effect.

(** [const x = yield* m; k] in the generator of [Effect.gen]. *)
Notation "'yield*' x '<-' m ';;' k" := (Effect.flatMap m (fun x => k))
  (at level 10, x name, m at level 99, k at level 200).

(** What a handler's [async GET] comes to: the response [ctx.render(data)],
    or a rejection that leaves the handler. *)
Inductive Outcome : Type :=
| Render (data : JSValue)
| Throws (reason : Cause Empty_set).

(** [return ctx.render(await promise)]. *)
Definition render_settled (p : World * Settled Empty_set JSValue)
  : World * Outcome :=
  match p with
  | (w, Resolved data) => (w, Render data)
  | (w, Rejected reason) => (w, Throws reason)
  end.

(** The one file both handlers read. *)
Definition dinosaurs_path : string := "data/dinosaurs.json".

(** ** routes/index.tsx *)

Module Index.

Inductive Error : Type :=
| FileReadError (error : JSError)
| ParseError (error : JSError)
| DataFormatError (message : string).

Definition _tag (e : Error) : string :=
  match e with
  | FileReadError _ => "FileReadError"
  | ParseError _ => "ParseError"
  | DataFormatError _ => "DataFormatError"
  end.

Definition readDinoFile : Effect.Effect Error string :=
  Effect.tryPromise (Deno_readTextFile dinosaurs_path) FileReadError.

Definition parseDinoData (host : Host) (data : string)
  : Effect.Effect Error JSValue :=
  Effect.try_ (JSON_parse_call host data) ParseError.

(** The type guard declared inside [validateDinoArray]. *)
Definition isValidDinoData (item : JSValue) : Js bool :=
  js_return (strict_eq_string (js_typeof item) "object")
  &&! js_return (not_null item)
  &&! js_expr (js_in "name" item)
  &&! (let! name := js_expr (js_get item "name") in
       js_return (strict_eq_string (js_typeof name) "string"))
  &&! js_expr (js_in "description" item)
  &&! (let! description := js_expr (js_get item "description") in
       js_return (strict_eq_string (js_typeof description) "string")).

Definition not_an_array : string := "Data is not in expected array format".

Definition invalid_items : string :=
  "Some items in array are not valid DinoData".

Definition validateDinoArray (data : JSValue)
  : Js (Effect.Effect Error JSValue) :=
  let! is_array := Array_isArray data in
  if negb is_array
  then js_return (Effect.fail (DataFormatError not_an_array))
  else
    let! all_valid := call_every data isValidDinoData in
    if negb all_valid
    then js_return (Effect.fail (DataFormatError invalid_items))
    else js_return (Effect.succeed data).

(** The generator of [GET]. The call [validateDinoArray(parsedData)] is
    code of the generator's body: it runs when the fibre reaches it. *)
Definition program (host : Host) : Effect.Effect Error JSValue :=
  Effect.gen (
    yield* fileContent <- readDinoFile ;;
    yield* parsedData <- parseDinoData host fileContent ;;
    yield* dinos <- Effect.suspend (validateDinoArray parsedData) ;;
    Effect.succeed dinos).

(** The function given to [Effect.catchAll]: log by kind, then fall back
    to the empty array. *)
Definition on_error (error : Error)
  : Js (Effect.Effect Empty_set JSValue) :=
  let! _ :=
    match error with
    | FileReadError cause =>
        console_error [ArgString "Error reading dinosaur file:";
                       ArgThrown cause]
    | ParseError cause =>
        console_error [ArgString "Error parsing dinosaur data:";
                       ArgThrown cause]
    | DataFormatError message =>
        console_error [ArgString "Data format error:"; ArgString message]
    end in
  js_return (Effect.succeed (JArray [])).

Definition GET (host : Host) (w : World) : World * Outcome :=
  render_settled
    (Effect.runPromise (Effect.catchAll (program host) on_error) w).

End Index.

(** ** routes/[dinosaur].tsx *)

Module Dinosaur.

Inductive Error : Type :=
| DinoNotFoundError (name : string)
| FileReadError (error : JSError).

Definition _tag (e : Error) : string :=
  match e with
  | DinoNotFoundError _ => "DinoNotFoundError"
  | FileReadError _ => "FileReadError"
  end.

Definition readDinoFile : Effect.Effect Error string :=
  Effect.tryPromise (Deno_readTextFile dinosaurs_path) FileReadError.

Definition parseDinos (host : Host) (data : string)
  : Effect.Effect Error JSValue :=
  Effect.try_ (JSON_parse_call host data) FileReadError.

(** [(d) => d.name.toLowerCase() === name.toLowerCase()] *)
Definition same_name (host : Host) (name : string) (d : JSValue) : Js bool :=
  let! d_name := js_expr (js_get d "name") in
  let! left := call_toLowerCase host d_name in
  let! right := call_toLowerCase host (JString name) in
  js_return (strict_eq_string left right).

Definition findDino (host : Host) (name : string) (dinos : JSValue)
  : Js (Effect.Effect Error JSValue) :=
  let! found := call_find dinos (same_name host name) in
  js_return
    (Effect.mapError (Effect.fromNullable found)
                     (fun _ => DinoNotFoundError name)).

(** The generator of [GET]. The call [findDino(ctx.params.dinosaur)(dinos)]
    is code of the generator's body, and so is the [dinos.find(...)] it
    evaluates before it builds its effect. *)
Definition program (host : Host) (dinosaur : string)
  : Effect.Effect Error JSValue :=
  Effect.gen (
    yield* fileData <- readDinoFile ;;
    yield* dinos <- parseDinos host fileData ;;
    yield* dino <- Effect.suspend (findDino host dinosaur dinos) ;;
    Effect.succeed dino).

Definition show_error (error : Error) : ConsoleArg :=
  match error with
  | DinoNotFoundError name => ArgInstance (_tag error) (ArgString name)
  | FileReadError cause => ArgInstance (_tag error) (ArgThrown cause)
  end.

(** The function given to [Effect.catchAll]: log, then fall back to
    [null]. *)
Definition on_error (error : Error)
  : Js (Effect.Effect Empty_set JSValue) :=
  let! _ := console_error [ArgString "Error fetching dinosaur:";
                           show_error error] in
  js_return (Effect.succeed JNull).

(** [dinosaur] is [ctx.params.dinosaur]. *)
Definition GET (host : Host) (dinosaur : string) (w : World)
  : World * Outcome :=
  render_settled
    (Effect.runPromise
       (Effect.catchAll (program host dinosaur) on_error) w).

End Dinosaur.

(** ** Vocabulary of the specification *)

(** [v] is an object with a field [key] of text type. *)
Definition has_string_field (key : string) (v : JSValue) : Prop :=
  ∃ props s, v = JObject props ∧ props !! key = Some (JString s).

(** Modelled from the spec: [types.ts], which declares [DinoData], is not
    among the sources. The spec's data model has one entity, a record with a
    [name] and a [description], both text. *)
Definition is_DinoData (v : JSValue) : Prop :=
  has_string_field "name" v ∧ has_string_field "description" v.

(** The name of an element that has one. *)
Definition name_of (d : JSValue) : option string :=
  match d with
  | JObject props =>
      match props !! "name" with
      | Some (JString s) => Some s
      | _ => None
      end
  | _ => None
  end.

(** [d] carries the requested name, letter case apart. *)
Definition matches (host : Host) (name : string) (d : JSValue) : Prop :=
  ∃ s, name_of d = Some s ∧ toLowerCase host s = toLowerCase host name.

(** The world after the calls [evs]. *)
Definition appends (evs : list Event) (w : World) : World :=
  {| files := files w; trace := trace w ++ evs |}.

(** The calls of the lookup's callback on the elements [items], in order. *)
Definition scan (name : string) (items : list JSValue) : list Event :=
  items ≫= λ d,
    match name_of d with
    | Some s => [CallToLowerCase (JString s); CallToLowerCase (JString name)]
    | None => []
    end.

(** What each handler logs for a failure it catches. *)
Definition index_log (error : Index.Error) : Event :=
  CallConsoleError
    match error with
    | Index.FileReadError cause =>
        [ArgString "Error reading dinosaur file:"; ArgThrown cause]
    | Index.ParseError cause =>
        [ArgString "Error parsing dinosaur data:"; ArgThrown cause]
    | Index.DataFormatError message =>
        [ArgString "Data format error:"; ArgString message]
    end.

Definition detail_log (error : Dinosaur.Error) : Event :=
  CallConsoleError
    [ArgString "Error fetching dinosaur:"; Dinosaur.show_error error].

(** The calls of a stage later than the read. *)
Definition after_read (e : Event) : Prop :=
  match e with
  | CallJSONParse _ | CallIsArray _ | CallEvery _ | CallFind _
  | CallToLowerCase _ => True
  | _ => False
  end.

(** The calls of a stage later than the parse. *)
Definition after_parse (e : Event) : Prop :=
  match e with
  | CallIsArray _ | CallEvery _ | CallFind _ | CallToLowerCase _ => True
  | _ => False
  end.

(** ** A sample host and sample files *)

Definition lower_ascii (c : ascii) : ascii :=
  let n := nat_of_ascii c in
  if (65 <=? n)%nat && (n <=? 90)%nat then ascii_of_nat (n + 32) else c.

(** [toLowerCase] on the letters A to Z. *)
Fixpoint lower (s : string) : string :=
  match s with
  | EmptyString => EmptyString
  | String c rest => String (lower_ascii c) (lower rest)
  end.

Definition quoted (s : string) : string :=
  String "034"%char (s +:+ String "034"%char EmptyString).

Definition member (key value : string) : string :=
  quoted key +:+ ":" +:+ quoted value.

Definition dino_text (name description : string) : string :=
  "{" +:+ member "name" name +:+ "," +:+ member "description" description
  +:+ "}".

Definition dino (name description : string) : JSValue :=
  JObject (<["name" := JString name]>
           (<["description" := JString description]> ∅)).

(** The file of the spec's round-trip example. *)
Definition rex_amy_text : string :=
  "[" +:+ dino_text "Rex" "D1" +:+ "," +:+ dino_text "Amy" "D2" +:+ "]".

Definition rex_amy : list JSValue := [dino "Rex" "D1"; dino "Amy" "D2"].

(** An array with an element that has no [name]. *)
Definition nameless_text : string :=
  "[" +:+ dino_text "Rex" "D1" +:+ ",{" +:+ member "description" "D2"
  +:+ "}]".

Definition nameless : list JSValue :=
  [dino "Rex" "D1"; JObject (<["description" := JString "D2"]> ∅)].

(** A text that is not JSON. *)
Definition truncated_text : string := "[{".

(** [JSON.parse] on the sample texts above and on two short ones. It is
    given no other text. *)
Definition sample_parse (text : string) : JSError + JSValue :=
  if bool_decide (text = rex_amy_text) then inr (JArray rex_amy)
  else if bool_decide (text = nameless_text) then inr (JArray nameless)
  else if bool_decide (text = "[]") then inr (JArray [])
  else if bool_decide (text = "{}") then inr (JObject ∅)
  else inl (HostError "SyntaxError" "Unexpected end of JSON input").

Definition sample_host : Host :=
  {| JSON_parse := sample_parse; toLowerCase := lower |}.

Definition not_found : JSError :=
  HostError "NotFound" "No such file or directory (os error 2)".

(** A world whose only file is [data/dinosaurs.json], with the given
    text. *)
Definition world_with (text : string) : World :=
  {| files := λ path,
       if bool_decide (path = dinosaurs_path) then inr text
       else inl not_found;
     trace := [] |}.

(** A world without the file. *)
Definition world_without : World :=
  {| files := λ _, inl not_found; trace := [] |}.

(** ** The page components *)

(** The components are called by the framework with what the handler gave
    to [ctx.render]. They are functions from that value to a virtual node,
    and they may throw; the trace of a handler does not cover them. *)

(** What a JSX expression builds: literal text, the value of a [{...}]
    child, an array child, or an element with its props and children. *)
Inductive VNode : Type :=
| Text (s : string)
| Value (v : JSValue)
| Nodes (items : list VNode)
| Element (type : string) (props : list (string * JSValue))
    (children : list VNode).

Definition throwing_bind {A B} (r : JSError + A) (k : A -> JSError + B)
  : JSError + B :=
  match r with
  | inl e => inl e
  | inr a => k a
  end.

Notation "'let?' x ':=' r 'in' k" := (throwing_bind r (fun x => k))
  (at level 10, x name, r at level 100, k at level 200).

(** [receiver.toLowerCase()] as an expression of a component. *)
Definition toLowerCase_of (host : Host) (receiver : JSValue)
  : JSError + string :=
  match receiver with
  | JString s => inr (toLowerCase host s)
  | _ => inl TypeError
  end.

(** The loop of [Array.prototype.map]. *)
Fixpoint map_loop {A} (callback : JSValue -> JSError + A)
    (items : list JSValue) : JSError + list A :=
  match items with
  | [] => inr []
  | x :: rest =>
      let? y := callback x in
      let? ys := map_loop callback rest in
      inr (y :: ys)
  end.

(** [!v]. *)
Definition js_not (v : JSValue) : bool :=
  match v with
  | JUndefined | JNull | JBool false | JString EmptyString => true
  | JNumber (S754_zero _) | JNumber S754_nan => true
  | _ => false
  end.

Definition class (value : string) : string * JSValue :=
  ("class", JString value).

(** The [<li>] that [Home] builds for one element of its list. *)
Definition Home_item (host : Host) (dino : JSValue) : JSError + VNode :=
  let? key := js_get dino "name" in
  let? name := js_get dino "name" in
  let? lower_name := toLowerCase_of host name in
  let? label := js_get dino "name" in
  inr (Element "li" [("key", key); class "my-2"]
         [Element "a"
            [("href", JString ("/" +:+ lower_name));
             class "text-blue-600 hover:underline"]
            [Value label]]).

(** The default export of [routes/index.tsx]. *)
Definition Home (host : Host) (data : JSValue) : JSError + VNode :=
  let dinosaurs := match data with JArray items => items | _ => [] end in
  let? items := map_loop (Home_item host) dinosaurs in
  inr (Element "main" [class "p-4 mx-auto max-w-screen-md"]
         [Element "h1" [class "text-2xl font-bold"]
            [Text "Welcome to the Dinosaur app"];
          Element "p" [class "my-4"]
            [Text "Click on a dinosaur below to learn more."];
          Element "ul" [class "list-disc pl-6"] [Nodes items]]).

(** The default export of [routes/[dinosaur].tsx]. *)
Definition DinoPage (dino : JSValue) : JSError + VNode :=
  if js_not dino
  then inr (Element "h1" [] [Text "Dinosaur not found"])
  else
    let? name := js_get dino "name" in
    let? description := js_get dino "description" in
    inr (Element "main" [class "p-4 mx-auto max-w-screen-md"]
           [Element "h1" [class "text-2xl font-bold mb-4"] [Value name];
            Element "p" [class "my-4"] [Value description];
            Element "a"
              [("href", JString "/"); class "text-blue-600 hover:underline"]
              [Text "Back to all dinosaurs"]]).

(** The elements of a given type inside a node, in document order, each
    with its props and its children. *)
Fixpoint elements (type : string) (n : VNode)
  : list (list (string * JSValue) * list VNode) :=
  match n with
  | Text _ | Value _ => []
  | Nodes items => flat_map (elements type) items
  | Element t props children =>
      (if bool_decide (t = type) then [(props, children)] else [])
      ++ flat_map (elements type) children
  end.

(** The link [Home] shows for a record named [s]. *)
Definition link_to (host : Host) (s : string)
  : list (string * JSValue) * list VNode :=
  ([("href", JString ("/" +:+ toLowerCase host s));
    class "text-blue-600 hover:underline"],
   [Value (JString s)]).

(** ** More vocabulary *)

(** The data file holds an array of records. *)
Definition well_formed (host : Host) (w : World) : Prop :=
  ∃ text items,
    files w dinosaurs_path = inr text
    ∧ JSON_parse host text = inr (JArray items)
    ∧ Forall is_DinoData items.

Definition is_log (ev : Event) : Prop :=
  match ev with CallConsoleError _ => True | _ => False end.

Definition is_read (ev : Event) : Prop :=
  match ev with CallReadTextFile _ => True | _ => False end.

(** A record with a name and nothing else. *)
Definition bare (name : string) : JSValue :=
  JObject (<["name" := JString name]> ∅).

(** A file with one such record, and the sample host extended to it. *)
Definition bare_text : string :=
  "[{" +:+ member "name" "Rex" +:+ "}]".

Definition bare_parse (text : string) : JSError + JSValue :=
  if bool_decide (text = bare_text) then inr (JArray [bare "Rex"])
  else sample_parse text.

Definition bare_host : Host :=
  {| JSON_parse := bare_parse; toLowerCase := lower |}.

(** ** Running the sample *)

Example list_rex_amy :
  (Index.GET sample_host (world_with rex_amy_text)).2 = Render (JArray rex_amy).
Proof. vm_compute. reflexivity. Qed.

Example detail_rex :
  (Dinosaur.GET sample_host "rex" (world_with rex_amy_text)).2
  = Render (dino "Rex" "D1").
Proof. vm_compute. reflexivity. Qed.

Example detail_REX :
  (Dinosaur.GET sample_host "REX" (world_with rex_amy_text)).2
  = Render (dino "Rex" "D1").
Proof. vm_compute. reflexivity. Qed.

Example detail_zzz :
  (Dinosaur.GET sample_host "zzz" (world_with rex_amy_text)).2 = Render JNull.
Proof. vm_compute. reflexivity. Qed.

Example list_trace :
  trace (Index.GET sample_host (world_with "[]")).1
  = [CallReadTextFile dinosaurs_path; CallJSONParse "[]";
     CallIsArray (JArray []); CallEvery (JArray [])].
Proof. vm_compute. reflexivity. Qed.

(** ** Worlds and traces *)

Lemma record_appends e w : record e w = appends [e] w.
Proof. reflexivity. Qed.

Lemma appends_appends evs evs' w :
  appends evs' (appends evs w) = appends (evs ++ evs') w.
Proof. unfold appends; simpl. by rewrite app_assoc. Qed.

Lemma appends_files evs w : files (appends evs w) = files w.
Proof. reflexivity. Qed.

Lemma appends_trace evs w : trace (appends evs w) = trace w ++ evs.
Proof. reflexivity. Qed.

Lemma array_or_not v : (∀ items, v ≠ JArray items) ∨ ∃ items, v = JArray items.
Proof. destruct v; eauto; by left. Qed.

(** ** The validator of the list endpoint *)

(** The element check calls nothing and never throws: the two guards before
    the first [in] keep that operator away from a primitive and from
    [null]. *)
Lemma isValidDinoData_spec item w :
  ∃ b, Index.isValidDinoData item w = (w, inr b)
       ∧ (b = true ↔ is_DinoData item).
Proof.
  unfold Index.isValidDinoData, js_and, js_bind, js_return, js_expr,
    is_DinoData, has_string_field.
  destruct item as [| |b|x|s|items|props]; simpl;
    try (eexists; split; [reflexivity|];
         split; [discriminate | intros [(?&?&?&_) _]; discriminate]).
  destruct (props !! "name") as [n|] eqn:Hn; simpl.
  2:{ eexists; split; [reflexivity|]. split; [discriminate|].
      intros [(?&?&?&?) _]. simplify_eq. }
  destruct (props !! "description") as [d|] eqn:Hd; simpl.
  2:{ destruct n; simpl; eexists; (split; [reflexivity|]);
      (split; [discriminate|]); intros [_ (?&?&?&?)]; simplify_eq. }
  destruct n, d; simpl; eexists; (split; [reflexivity|]);
    (split; [try discriminate | try reflexivity]);
    try (intros [(?&?&?&?) (?&?&?&?)]; simplify_eq); eauto 10.
Qed.

Lemma every_valid items w :
  ∃ b, every_loop Index.isValidDinoData items w = (w, inr b)
       ∧ (b = true ↔ Forall is_DinoData items).
Proof.
  induction items as [|x rest IH]; simpl.
  - exists true. split; [reflexivity|]. by split.
  - unfold js_bind.
    destruct (isValidDinoData_spec x w) as (b & -> & Hb).
    destruct b.
    + destruct IH as (b' & -> & Hb'). exists b'. split; [reflexivity|].
      rewrite Forall_cons.
      split; [intros ->; split; [by apply Hb | by apply Hb']|].
      intros [_ Hrest]. by apply Hb'.
    + exists false. split; [reflexivity|].
      rewrite Forall_cons.
      split; [discriminate | intros [Hx _]; by apply Hb in Hx].
Qed.

(** What the fibre gets from [yield* validateDinoArray(data)], case by
    case. *)
Lemma validate_not_array data w :
  (∀ items, data ≠ JArray items) →
  Effect.suspend (Index.validateDinoArray data) w
  = (appends [CallIsArray data] w,
     Failure (Fail (Index.DataFormatError Index.not_an_array))).
Proof.
  intros Hno. destruct data; try reflexivity. by destruct (Hno items).
Qed.

Lemma validate_invalid items w :
  ¬ Forall is_DinoData items →
  Effect.suspend (Index.validateDinoArray (JArray items)) w
  = (appends [CallIsArray (JArray items); CallEvery (JArray items)] w,
     Failure (Fail (Index.DataFormatError Index.invalid_items))).
Proof.
  intros Hbad.
  unfold Effect.suspend, Index.validateDinoArray, js_bind, Array_isArray,
    call_every; simpl.
  destruct (every_valid items (record (CallEvery (JArray items))
     (record (CallIsArray (JArray items)) w))) as (b & -> & Hb).
  destruct b; [by destruct Hbad; apply Hb|].
  simpl. by rewrite !record_appends, appends_appends.
Qed.

Lemma validate_valid items w :
  Forall is_DinoData items →
  Effect.suspend (Index.validateDinoArray (JArray items)) w
  = (appends [CallIsArray (JArray items); CallEvery (JArray items)] w,
     Success (JArray items)).
Proof.
  intros Hok.
  unfold Effect.suspend, Index.validateDinoArray, js_bind, Array_isArray,
    call_every; simpl.
  destruct (every_valid items (record (CallEvery (JArray items))
     (record (CallIsArray (JArray items)) w))) as (b & -> & Hb).
  destruct b; [|by apply Hb in Hok].
  simpl. by rewrite !record_appends, appends_appends.
Qed.

(** ** The list endpoint, stage by stage *)

Lemma index_read_fails host w e :
  files w dinosaurs_path = inl e →
  Index.program host w
  = (appends [CallReadTextFile dinosaurs_path] w,
     Failure (Fail (Index.FileReadError e))).
Proof.
  intros Hread.
  unfold Index.program, Effect.gen, Effect.flatMap, Index.readDinoFile,
    Effect.tryPromise, Effect.try_, Deno_readTextFile.
  by rewrite Hread.
Qed.

Lemma index_parse_fails host w text e :
  files w dinosaurs_path = inr text →
  JSON_parse host text = inl e →
  Index.program host w
  = (appends [CallReadTextFile dinosaurs_path; CallJSONParse text] w,
     Failure (Fail (Index.ParseError e))).
Proof.
  intros Hread Hparse.
  unfold Index.program, Effect.gen, Effect.flatMap, Index.readDinoFile,
    Index.parseDinoData, Effect.tryPromise, Effect.try_, Deno_readTextFile,
    JSON_parse_call.
  rewrite Hread, Hparse. by rewrite !record_appends, appends_appends.
Qed.

Lemma index_parsed host w text v :
  files w dinosaurs_path = inr text →
  JSON_parse host text = inr v →
  Index.program host w
  = Effect.suspend (Index.validateDinoArray v)
      (appends [CallReadTextFile dinosaurs_path; CallJSONParse text] w).
Proof.
  intros Hread Hparse.
  unfold Index.program, Effect.gen, Effect.flatMap, Index.readDinoFile,
    Index.parseDinoData, Effect.tryPromise, Effect.try_, Deno_readTextFile,
    JSON_parse_call.
  rewrite Hread, Hparse, !record_appends, appends_appends. simpl.
  by destruct (Effect.suspend _ _) as [w' [value|cause]].
Qed.

(** The handler after the program: a success is rendered, a typed failure is
    logged and replaced by the empty array, a defect leaves the handler. *)
Lemma index_GET_success host w w' data :
  Index.program host w = (w', Success data) →
  Index.GET host w = (w', Render data).
Proof.
  intros Hrun. unfold Index.GET, Effect.runPromise, Effect.catchAll.
  by rewrite Hrun.
Qed.

Lemma index_GET_failure host w w' error :
  Index.program host w = (w', Failure (Fail error)) →
  Index.GET host w = (appends [index_log error] w', Render (JArray [])).
Proof.
  intros Hrun. unfold Index.GET, Effect.runPromise, Effect.catchAll.
  rewrite Hrun. by destruct error.
Qed.

Lemma index_GET_no_file host w e :
  files w dinosaurs_path = inl e →
  Index.GET host w
  = (appends [CallReadTextFile dinosaurs_path;
              index_log (Index.FileReadError e)] w,
     Render (JArray [])).
Proof.
  intros Hread.
  rewrite (index_GET_failure _ _ _ _ (index_read_fails host w e Hread)).
  by rewrite appends_appends.
Qed.

Lemma index_GET_malformed host w text e :
  files w dinosaurs_path = inr text →
  JSON_parse host text = inl e →
  Index.GET host w
  = (appends [CallReadTextFile dinosaurs_path; CallJSONParse text;
              index_log (Index.ParseError e)] w,
     Render (JArray [])).
Proof.
  intros Hread Hparse.
  rewrite (index_GET_failure _ _ _ _
             (index_parse_fails host w text e Hread Hparse)).
  by rewrite appends_appends.
Qed.

Lemma index_GET_not_array host w text v :
  files w dinosaurs_path = inr text →
  JSON_parse host text = inr v →
  (∀ items, v ≠ JArray items) →
  Index.GET host w
  = (appends [CallReadTextFile dinosaurs_path; CallJSONParse text;
              CallIsArray v;
              index_log (Index.DataFormatError Index.not_an_array)] w,
     Render (JArray [])).
Proof.
  intros Hread Hparse Hno.
  erewrite index_GET_failure.
  2:{ rewrite (index_parsed host w text v Hread Hparse).
      by apply validate_not_array. }
  by rewrite !appends_appends.
Qed.

Lemma index_GET_invalid host w text items :
  files w dinosaurs_path = inr text →
  JSON_parse host text = inr (JArray items) →
  ¬ Forall is_DinoData items →
  Index.GET host w
  = (appends [CallReadTextFile dinosaurs_path; CallJSONParse text;
              CallIsArray (JArray items); CallEvery (JArray items);
              index_log (Index.DataFormatError Index.invalid_items)] w,
     Render (JArray [])).
Proof.
  intros Hread Hparse Hbad.
  erewrite index_GET_failure.
  2:{ rewrite (index_parsed host w text _ Hread Hparse).
      by apply validate_invalid. }
  by rewrite !appends_appends.
Qed.

Lemma index_GET_valid host w text items :
  files w dinosaurs_path = inr text →
  JSON_parse host text = inr (JArray items) →
  Forall is_DinoData items →
  Index.GET host w
  = (appends [CallReadTextFile dinosaurs_path; CallJSONParse text;
              CallIsArray (JArray items); CallEvery (JArray items)] w,
     Render (JArray items)).
Proof.
  intros Hread Hparse Hok.
  erewrite index_GET_success.
  2:{ rewrite (index_parsed host w text _ Hread Hparse).
      by apply validate_valid. }
  by rewrite !appends_appends.
Qed.

(** Whether every element is a record can be decided, by running the
    check. *)
Lemma all_DinoData_dec items :
  Forall is_DinoData items ∨ ¬ Forall is_DinoData items.
Proof.
  destruct (every_valid items world_without) as ([|] & _ & Hb).
  - left. by apply Hb.
  - right. intros Hall. by apply Hb in Hall.
Qed.

(** The list endpoint always renders: what it does is fixed by what the read
    of the file gives. *)
Lemma index_GET_runs host r :
  ∃ evs data, ∀ w,
    files w dinosaurs_path = r →
    Index.GET host w = (appends evs w, Render data).
Proof.
  destruct r as [e|text].
  { do 2 eexists. intros w Hread. by apply index_GET_no_file. }
  destruct (JSON_parse host text) as [e|v] eqn:Hparse.
  { do 2 eexists. intros w Hread. by eapply index_GET_malformed. }
  destruct (array_or_not v) as [Hno|[items ->]].
  { do 2 eexists. intros w Hread. by eapply index_GET_not_array. }
  destruct (all_DinoData_dec items) as [Hok|Hbad].
  - do 2 eexists. intros w Hread. by eapply index_GET_valid.
  - do 2 eexists. intros w Hread. by eapply index_GET_invalid.
Qed.

(** ** The lookup of the detail endpoint *)

Lemma appends_nil w : appends [] w = w.
Proof. destruct w. unfold appends; simpl. by rewrite app_nil_r. Qed.

(** The callback on an element that has a name: two calls of
    [toLowerCase], then the comparison. *)
Lemma same_name_named host name d s w :
  name_of d = Some s →
  Dinosaur.same_name host name d w
  = (appends [CallToLowerCase (JString s); CallToLowerCase (JString name)] w,
     inr (bool_decide (toLowerCase host s = toLowerCase host name))).
Proof.
  intros Hname. destruct d as [| | | | | |props]; try discriminate.
  simpl in Hname.
  unfold Dinosaur.same_name, js_bind, js_expr, js_get.
  destruct (props !! "name") as [[| | | |s'| |]|]; simplify_eq. simpl.
  by rewrite !record_appends, appends_appends.
Qed.

(** The callback throws on every other element, before any call. *)
Lemma same_name_nameless host name d w :
  name_of d = None →
  Dinosaur.same_name host name d w = (w, inl TypeError).
Proof.
  intros Hname. unfold Dinosaur.same_name, js_bind, js_expr, js_get.
  destruct d as [| | | | | |props]; try reflexivity.
  simpl in Hname.
  by destruct (props !! "name") as [[| | | |s'| |]|]; simplify_eq.
Qed.

Lemma scan_cons name d rest :
  scan name (d :: rest) = scan name [d] ++ scan name rest.
Proof. unfold scan. simpl. by rewrite app_nil_r. Qed.

Lemma scan_named name d s :
  name_of d = Some s →
  scan name [d] = [CallToLowerCase (JString s); CallToLowerCase (JString name)].
Proof. intros Hname. unfold scan. simpl. by rewrite Hname. Qed.

(** The scan stops at the first element that matches and returns it. *)
Lemma find_loop_first host name pre d post w :
  Forall (λ x, is_Some (name_of x)) pre →
  Forall (λ x, ¬ matches host name x) pre →
  matches host name d →
  find_loop (Dinosaur.same_name host name) (pre ++ d :: post) w
  = (appends (scan name (pre ++ [d])) w, inr d).
Proof.
  intros Hnamed Hnone Hd. revert w.
  induction Hnamed as [|x pre [s Hs] _ IH]; intros w;
    cbn [app find_loop]; unfold js_bind.
  - destruct Hd as (s & Hs & Heq).
    rewrite (same_name_named _ _ _ _ _ Hs).
    rewrite bool_decide_eq_true_2 by done.
    by rewrite (scan_named _ _ _ Hs).
  - apply Forall_cons in Hnone as [Hx Hnone].
    rewrite (same_name_named _ _ _ _ _ Hs).
    rewrite bool_decide_eq_false_2.
    2:{ intros Heq. apply Hx. by exists s. }
    rewrite (IH Hnone), appends_appends.
    by rewrite (scan_cons _ x), (scan_named _ _ _ Hs).
Qed.

(** Without a match the scan visits every element and returns
    [undefined]. *)
Lemma find_loop_none host name items w :
  Forall (λ x, is_Some (name_of x)) items →
  Forall (λ x, ¬ matches host name x) items →
  find_loop (Dinosaur.same_name host name) items w
  = (appends (scan name items) w, inr JUndefined).
Proof.
  intros Hnamed Hnone. revert w.
  induction Hnamed as [|x rest [s Hs] _ IH]; intros w;
    cbn [find_loop]; unfold js_bind.
  - by rewrite appends_nil.
  - apply Forall_cons in Hnone as [Hx Hnone].
    rewrite (same_name_named _ _ _ _ _ Hs).
    rewrite bool_decide_eq_false_2.
    2:{ intros Heq. apply Hx. by exists s. }
    rewrite (IH Hnone), appends_appends.
    by rewrite (scan_cons _ x), (scan_named _ _ _ Hs).
Qed.

Lemma DinoData_named d : is_DinoData d → is_Some (name_of d).
Proof. intros [(props & s & -> & Hs) _]. simpl. by rewrite Hs. Qed.

(** On any array the scan only adds calls to the trace, and neither the
    calls nor the result depend on the world. *)
Lemma find_loop_runs host name items :
  ∃ evs r, ∀ w,
    find_loop (Dinosaur.same_name host name) items w = (appends evs w, r).
Proof.
  induction items as [|x rest (evs & r & IH)]; simpl.
  - exists [], (inr JUndefined). intros w. by rewrite appends_nil.
  - unfold js_bind. destruct (name_of x) as [s|] eqn:Hname.
    + destruct (bool_decide (toLowerCase host s = toLowerCase host name))
        eqn:Hcmp.
      * do 2 eexists. intros w.
        by rewrite (same_name_named _ _ _ _ _ Hname), Hcmp.
      * do 2 eexists. intros w.
        by rewrite (same_name_named _ _ _ _ _ Hname), Hcmp, IH,
          appends_appends.
    + exists [], (inl TypeError). intros w.
      by rewrite (same_name_nameless _ _ _ _ Hname), appends_nil.
Qed.

(** What the fibre gets from [yield* findDino(name)(dinos)]. *)
Lemma findDino_not_array host name v w :
  (∀ items, v ≠ JArray items) →
  Effect.suspend (Dinosaur.findDino host name v) w
  = (w, Failure (Die TypeError)).
Proof.
  intros Hno. destruct v; try reflexivity. by destruct (Hno items).
Qed.

Lemma findDino_first host name pre d post w :
  Forall (λ x, is_Some (name_of x)) pre →
  Forall (λ x, ¬ matches host name x) pre →
  matches host name d →
  Effect.suspend (Dinosaur.findDino host name (JArray (pre ++ d :: post))) w
  = (appends (CallFind (JArray (pre ++ d :: post)) :: scan name (pre ++ [d])) w,
     Success d).
Proof.
  intros Hnamed Hnone Hd.
  unfold Effect.suspend, Dinosaur.findDino, js_bind, call_find.
  rewrite (find_loop_first _ _ _ _ _ _ Hnamed Hnone Hd).
  rewrite record_appends, appends_appends. simpl.
  destruct Hd as (s & Hs & _). by destruct d.
Qed.

Lemma findDino_none host name items w :
  Forall (λ x, is_Some (name_of x)) items →
  Forall (λ x, ¬ matches host name x) items →
  Effect.suspend (Dinosaur.findDino host name (JArray items)) w
  = (appends (CallFind (JArray items) :: scan name items) w,
     Failure (Fail (Dinosaur.DinoNotFoundError name))).
Proof.
  intros Hnamed Hnone.
  unfold Effect.suspend, Dinosaur.findDino, js_bind, call_find.
  rewrite (find_loop_none _ _ _ _ Hnamed Hnone).
  by rewrite record_appends, appends_appends.
Qed.

Lemma findDino_runs host name v :
  ∃ evs exit, ∀ w,
    Effect.suspend (Dinosaur.findDino host name v) w = (appends evs w, exit).
Proof.
  destruct (array_or_not v) as [Hno|[items ->]].
  { do 2 eexists. intros w.
    by rewrite (findDino_not_array _ _ _ _ Hno), <- (appends_nil w) at 1. }
  destruct (find_loop_runs host name items) as (evs & r & Hrun).
  unfold Effect.suspend, Dinosaur.findDino, js_bind, call_find.
  destruct r as [e|found].
  - do 2 eexists. intros w.
    by rewrite Hrun, record_appends, appends_appends.
  - exists ([CallFind (JArray items)] ++ evs),
      (Effect.mapError (Effect.fromNullable found)
         (λ _, Dinosaur.DinoNotFoundError name) world_without).2.
    intros w. rewrite Hrun, record_appends, appends_appends. simpl.
    by destruct found.
Qed.

(** ** The detail endpoint, stage by stage *)

Lemma detail_read_fails host name w e :
  files w dinosaurs_path = inl e →
  Dinosaur.program host name w
  = (appends [CallReadTextFile dinosaurs_path] w,
     Failure (Fail (Dinosaur.FileReadError e))).
Proof.
  intros Hread.
  unfold Dinosaur.program, Effect.gen, Effect.flatMap, Dinosaur.readDinoFile,
    Effect.tryPromise, Effect.try_, Deno_readTextFile.
  by rewrite Hread.
Qed.

Lemma detail_parse_fails host name w text e :
  files w dinosaurs_path = inr text →
  JSON_parse host text = inl e →
  Dinosaur.program host name w
  = (appends [CallReadTextFile dinosaurs_path; CallJSONParse text] w,
     Failure (Fail (Dinosaur.FileReadError e))).
Proof.
  intros Hread Hparse.
  unfold Dinosaur.program, Effect.gen, Effect.flatMap, Dinosaur.readDinoFile,
    Dinosaur.parseDinos, Effect.tryPromise, Effect.try_, Deno_readTextFile,
    JSON_parse_call.
  rewrite Hread, Hparse. by rewrite !record_appends, appends_appends.
Qed.

Lemma detail_parsed host name w text v :
  files w dinosaurs_path = inr text →
  JSON_parse host text = inr v →
  Dinosaur.program host name w
  = Effect.suspend (Dinosaur.findDino host name v)
      (appends [CallReadTextFile dinosaurs_path; CallJSONParse text] w).
Proof.
  intros Hread Hparse.
  unfold Dinosaur.program, Effect.gen, Effect.flatMap, Dinosaur.readDinoFile,
    Dinosaur.parseDinos, Effect.tryPromise, Effect.try_, Deno_readTextFile,
    JSON_parse_call.
  rewrite Hread, Hparse, !record_appends, appends_appends. simpl.
  by destruct (Effect.suspend _ _) as [w' [value|cause]].
Qed.

(** The handler after the program. Only the second case goes through the
    function given to [catchAll]. *)
Lemma detail_GET_success host name w w' data :
  Dinosaur.program host name w = (w', Success data) →
  Dinosaur.GET host name w = (w', Render data).
Proof.
  intros Hrun. unfold Dinosaur.GET, Effect.runPromise, Effect.catchAll.
  by rewrite Hrun.
Qed.

Lemma detail_GET_failure host name w w' error :
  Dinosaur.program host name w = (w', Failure (Fail error)) →
  Dinosaur.GET host name w = (appends [detail_log error] w', Render JNull).
Proof.
  intros Hrun. unfold Dinosaur.GET, Effect.runPromise, Effect.catchAll.
  by rewrite Hrun.
Qed.

Lemma detail_GET_defect host name w w' defect :
  Dinosaur.program host name w = (w', Failure (Die defect)) →
  Dinosaur.GET host name w = (w', Throws (Die defect)).
Proof.
  intros Hrun. unfold Dinosaur.GET, Effect.runPromise, Effect.catchAll.
  by rewrite Hrun.
Qed.

Lemma detail_GET_no_file host name w e :
  files w dinosaurs_path = inl e →
  Dinosaur.GET host name w
  = (appends [CallReadTextFile dinosaurs_path;
              detail_log (Dinosaur.FileReadError e)] w,
     Render JNull).
Proof.
  intros Hread.
  rewrite (detail_GET_failure _ _ _ _ _
             (detail_read_fails host name w e Hread)).
  by rewrite appends_appends.
Qed.

Lemma detail_GET_malformed host name w text e :
  files w dinosaurs_path = inr text →
  JSON_parse host text = inl e →
  Dinosaur.GET host name w
  = (appends [CallReadTextFile dinosaurs_path; CallJSONParse text;
              detail_log (Dinosaur.FileReadError e)] w,
     Render JNull).
Proof.
  intros Hread Hparse.
  rewrite (detail_GET_failure _ _ _ _ _
             (detail_parse_fails host name w text e Hread Hparse)).
  by rewrite appends_appends.
Qed.

(** What the detail endpoint does is fixed by the requested name and by
    what the read of the file gives. *)
Lemma detail_GET_runs host name r :
  ∃ evs outcome, ∀ w,
    files w dinosaurs_path = r →
    Dinosaur.GET host name w = (appends evs w, outcome).
Proof.
  destruct r as [e|text].
  { do 2 eexists. intros w Hread. by apply detail_GET_no_file. }
  destruct (JSON_parse host text) as [e|v] eqn:Hparse.
  { do 2 eexists. intros w Hread. by eapply detail_GET_malformed. }
  destruct (findDino_runs host name v) as (evs & [data|[error|defect]] & Hrun).
  - do 2 eexists. intros w Hread. erewrite detail_GET_success.
    2:{ by rewrite (detail_parsed _ _ _ _ _ Hread Hparse), Hrun. }
    by rewrite appends_appends.
  - do 2 eexists. intros w Hread. erewrite detail_GET_failure.
    2:{ by rewrite (detail_parsed _ _ _ _ _ Hread Hparse), Hrun. }
    by rewrite !appends_appends.
  - do 2 eexists. intros w Hread. erewrite detail_GET_defect.
    2:{ by rewrite (detail_parsed _ _ _ _ _ Hread Hparse), Hrun. }
    by rewrite appends_appends.
Qed.

Lemma detail_GET_not_array host name w text v :
  files w dinosaurs_path = inr text →
  JSON_parse host text = inr v →
  (∀ items, v ≠ JArray items) →
  Dinosaur.GET host name w
  = (appends [CallReadTextFile dinosaurs_path; CallJSONParse text] w,
     Throws (Die TypeError)).
Proof.
  intros Hread Hparse Hno. apply detail_GET_defect.
  rewrite (detail_parsed _ _ _ _ _ Hread Hparse).
  by apply findDino_not_array.
Qed.

(** ** The claims *)

(** C1 (the code departs from it). The claim: on both endpoints every
    failure of the pipeline reaches the handler's fallback and none leaves
    the handler. The list endpoint does that. The detail endpoint does not
    check the shape of what it parsed: when the file holds JSON that is not
    an array, or an array with an element without a name before any match,
    the lookup throws a [TypeError] in the generator, which is a defect;
    [catchAll] does not see it, the promise rejects and the rejection leaves
    [GET]. On the same two files the list endpoint renders the empty
    array. *)
Theorem detail_lookup_defect_leaves_handler :
  (Dinosaur.GET sample_host "rex" (world_with "{}")).2 = Throws (Die TypeError)
  ∧ (Dinosaur.GET sample_host "amy" (world_with nameless_text)).2
    = Throws (Die TypeError)
  ∧ (Index.GET sample_host (world_with "{}")).2 = Render (JArray [])
  ∧ (Index.GET sample_host (world_with nameless_text)).2 = Render (JArray []).
Proof. repeat split; vm_compute; reflexivity. Qed.

(** C2. On a sequence of records the lookup of the detail endpoint compares
    names in sequence order, letter case apart, up to the first element
    that matches, and returns that element, also when later elements match
    too; when no element matches it fails with a [DinoNotFoundError] that
    carries the requested name. *)
Theorem findDino_returns_first_match host name items w :
  Forall is_DinoData items →
  (∀ pre d post,
     items = pre ++ d :: post →
     Forall (λ x, ¬ matches host name x) pre →
     matches host name d →
     Effect.suspend (Dinosaur.findDino host name (JArray items)) w
     = (appends (CallFind (JArray items) :: scan name (pre ++ [d])) w,
        Success d))
  ∧ (Forall (λ x, ¬ matches host name x) items →
     Effect.suspend (Dinosaur.findDino host name (JArray items)) w
     = (appends (CallFind (JArray items) :: scan name items) w,
        Failure (Fail (Dinosaur.DinoNotFoundError name)))).
Proof.
  intros Hrecords.
  assert (Hnamed : Forall (λ x, is_Some (name_of x)) items).
  { eapply Forall_impl; [exact Hrecords|]. apply DinoData_named. }
  split.
  - intros pre d post -> Hnone Hd.
    apply Forall_app in Hnamed as [Hpre _].
    by apply findDino_first.
  - intros Hnone. by apply findDino_none.
Qed.

Lemma dino_is_DinoData name description : is_DinoData (dino name description).
Proof.
  split.
  - exists (<["name" := JString name]>
             (<["description" := JString description]> ∅)), name.
    split; [reflexivity|]. apply lookup_insert_eq.
  - exists (<["name" := JString name]>
             (<["description" := JString description]> ∅)), description.
    split; [reflexivity|].
    rewrite lookup_insert_ne by done. apply lookup_insert_eq.
Defined.

Lemma rex_amy_records : Forall is_DinoData rex_amy.
Proof. repeat constructor; apply dino_is_DinoData. Defined.

Lemma rex_is_not_amy : ¬ matches sample_host "AMY" (dino "Rex" "D1").
Proof.
  intros (s & Hs & Heq). vm_compute in Hs. injection Hs as <-.
  vm_compute in Heq. discriminate.
Defined.

Lemma amy_is_amy : matches sample_host "AMY" (dino "Amy" "D2").
Proof. exists "Amy". split; vm_compute; reflexivity. Defined.

Lemma findDino_returns_first_match_witness :
  Forall is_DinoData rex_amy
  ∧ Effect.suspend (Dinosaur.findDino sample_host "AMY" (JArray rex_amy))
      (world_with rex_amy_text)
    = (appends [CallFind (JArray rex_amy);
                CallToLowerCase (JString "Rex"); CallToLowerCase (JString "AMY");
                CallToLowerCase (JString "Amy"); CallToLowerCase (JString "AMY")]
         (world_with rex_amy_text),
       Success (dino "Amy" "D2")).
Proof.
  split; [exact rex_amy_records|].
  destruct (findDino_returns_first_match sample_host "AMY" rex_amy
              (world_with rex_amy_text) rex_amy_records) as [Hfirst _].
  apply (Hfirst [dino "Rex" "D1"] (dino "Amy" "D2") [] eq_refl).
  - constructor; [exact rex_is_not_amy | constructor].
  - exact amy_is_amy.
Defined.

(** C3. The validator of the list endpoint succeeds exactly when the parsed
    value is an array whose elements are all objects with a string [name]
    and a string [description], and then returns the value itself. Otherwise
    it fails with a [DataFormatError]: one message when the value is not an
    array, another when an element has the wrong shape. *)
Theorem validateDinoArray_accepts_exactly_records data w :
  let exit := (Effect.suspend (Index.validateDinoArray data) w).2 in
  ((∃ value, exit = Success value)
   ↔ ∃ items, data = JArray items ∧ Forall is_DinoData items)
  ∧ ((∃ value, exit = Success value) → exit = Success data)
  ∧ ((∀ items, data ≠ JArray items) →
     exit = Failure (Fail (Index.DataFormatError Index.not_an_array)))
  ∧ (∀ items, data = JArray items → ¬ Forall is_DinoData items →
     exit = Failure (Fail (Index.DataFormatError Index.invalid_items)))
  ∧ Index.not_an_array ≠ Index.invalid_items.
Proof.
  assert (Hcases : (∀ items, data ≠ JArray items)
                   ∨ (∃ items, data = JArray items ∧ Forall is_DinoData items)
                   ∨ (∃ items, data = JArray items
                               ∧ ¬ Forall is_DinoData items)).
  { destruct data; try by left.
    destruct (all_DinoData_dec items); eauto. }
  cbv zeta. repeat split.
  - intros [value Hvalue].
    destruct Hcases as [Hno|[Hok|(items & -> & Hbad)]]; [|done|].
    + by rewrite validate_not_array in Hvalue.
    + by rewrite validate_invalid in Hvalue.
  - intros (items & -> & Hok). eexists. by rewrite validate_valid.
  - intros [value Hvalue].
    destruct Hcases as [Hno|[(items & -> & Hok)|(items & -> & Hbad)]].
    + by rewrite validate_not_array in Hvalue.
    + by rewrite validate_valid.
    + by rewrite validate_invalid in Hvalue.
  - intros Hno. by rewrite validate_not_array.
  - intros items -> Hbad. by rewrite validate_invalid.
  - discriminate.
Qed.

(** C4. When the file parses to an array whose elements are all records,
    the list endpoint renders a sequence of the same length with the same
    element at every position. *)
Theorem list_keeps_records_in_order host w text items :
  files w dinosaurs_path = inr text →
  JSON_parse host text = inr (JArray items) →
  Forall is_DinoData items →
  ∃ out,
    (Index.GET host w).2 = Render (JArray out)
    ∧ length out = length items
    ∧ ∀ i, out !! i = items !! i.
Proof.
  intros Hread Hparse Hok. exists items.
  by rewrite (index_GET_valid _ _ _ _ Hread Hparse Hok).
Qed.

Lemma sample_reads text :
  files (world_with text) dinosaurs_path = inr text.
Proof. reflexivity. Defined.

Lemma list_keeps_records_in_order_witness :
  ∃ out,
    (Index.GET sample_host (world_with rex_amy_text)).2 = Render (JArray out)
    ∧ length out = 2
    ∧ ∀ i, out !! i = rex_amy !! i.
Proof.
  apply (list_keeps_records_in_order sample_host (world_with rex_amy_text)
           rex_amy_text rex_amy).
  - apply sample_reads.
  - vm_compute. reflexivity.
  - exact rex_amy_records.
Defined.

(** C5. When the file parses to something that is not an array, or to an
    array with an element that lacks a string [name] or a string
    [description], the list endpoint renders the empty array, whatever the
    other elements are. *)
Theorem list_all_or_nothing host w text v :
  files w dinosaurs_path = inr text →
  JSON_parse host text = inr v →
  (∀ items, v ≠ JArray items)
  ∨ (∃ items, v = JArray items
       ∧ Exists (λ x, ¬ has_string_field "name" x
                      ∨ ¬ has_string_field "description" x) items) →
  (Index.GET host w).2 = Render (JArray []).
Proof.
  intros Hread Hparse [Hno|(items & -> & Hbad)].
  - by rewrite (index_GET_not_array _ _ _ _ Hread Hparse Hno).
  - rewrite (index_GET_invalid _ _ _ _ Hread Hparse); [done|].
    intros Hall. apply Exists_exists in Hbad as (x & Hx & Hlacks).
    rewrite Forall_forall in Hall. destruct (Hall x Hx) as [Hn Hd].
    by destruct Hlacks.
Qed.

Lemma nameless_lacks_name :
  ¬ has_string_field "name" (JObject (<["description" := JString "D2"]> ∅)).
Proof.
  intros (props & s & Heq & Hs). injection Heq as <-.
  vm_compute in Hs. discriminate.
Defined.

Lemma list_all_or_nothing_witness :
  (Index.GET sample_host (world_with nameless_text)).2 = Render (JArray []).
Proof.
  apply (list_all_or_nothing sample_host (world_with nameless_text)
           nameless_text (JArray nameless)).
  - apply sample_reads.
  - vm_compute. reflexivity.
  - right. exists nameless. split; [reflexivity|].
    apply Exists_cons_tl, Exists_cons_hd. left. exact nameless_lacks_name.
Defined.

(** C6. When the read of the data file fails, the list endpoint renders the
    empty array and the detail endpoint renders [null]: both handlers
    return a response. *)
Theorem missing_file_gives_safe_default host name w e :
  files w dinosaurs_path = inl e →
  (Index.GET host w).2 = Render (JArray [])
  ∧ (Dinosaur.GET host name w).2 = Render JNull.
Proof.
  intros Hread.
  by rewrite (index_GET_no_file _ _ _ Hread),
    (detail_GET_no_file _ _ _ _ Hread).
Qed.

Lemma missing_file_gives_safe_default_witness :
  files world_without dinosaurs_path = inl not_found
  ∧ (Index.GET sample_host world_without).2 = Render (JArray [])
  ∧ (Dinosaur.GET sample_host "rex" world_without).2 = Render JNull.
Proof.
  split; [reflexivity|].
  apply (missing_file_gives_safe_default sample_host "rex" world_without
           not_found).
  reflexivity.
Defined.

(** C7. In both pipelines the first failing stage ends the chain. When the
    read fails, neither handler calls [JSON.parse] nor anything of the
    validation or of the lookup; when the parse fails, neither calls
    anything of the validation or of the lookup. In both cases the
    rendering input is the fallback, not a result of a later stage. *)
Theorem first_failure_ends_pipeline host name w :
  (∀ e, files w dinosaurs_path = inl e →
     ∃ evs evs',
       Index.GET host w = (appends evs w, Render (JArray []))
       ∧ Dinosaur.GET host name w = (appends evs' w, Render JNull)
       ∧ Forall (λ ev, ¬ after_read ev) (evs ++ evs'))
  ∧ (∀ text e,
       files w dinosaurs_path = inr text →
       JSON_parse host text = inl e →
       ∃ evs evs',
         Index.GET host w = (appends evs w, Render (JArray []))
         ∧ Dinosaur.GET host name w = (appends evs' w, Render JNull)
         ∧ Forall (λ ev, ¬ after_parse ev) (evs ++ evs')).
Proof.
  split.
  - intros e Hread. do 2 eexists.
    split; [by apply index_GET_no_file|].
    split; [by apply detail_GET_no_file|].
    repeat constructor; by intros [].
  - intros text e Hread Hparse. do 2 eexists.
    split; [by eapply index_GET_malformed|].
    split; [by eapply detail_GET_malformed|].
    repeat constructor; by intros [].
Qed.

Lemma first_failure_ends_pipeline_witness :
  (∃ evs evs',
     Index.GET sample_host world_without
     = (appends evs world_without, Render (JArray []))
     ∧ Dinosaur.GET sample_host "rex" world_without
       = (appends evs' world_without, Render JNull)
     ∧ Forall (λ ev, ¬ after_read ev) (evs ++ evs'))
  ∧ (∃ evs evs',
       Index.GET sample_host (world_with truncated_text)
       = (appends evs (world_with truncated_text), Render (JArray []))
       ∧ Dinosaur.GET sample_host "rex" (world_with truncated_text)
         = (appends evs' (world_with truncated_text), Render JNull)
       ∧ Forall (λ ev, ¬ after_parse ev) (evs ++ evs')).
Proof.
  split.
  - apply (proj1 (first_failure_ends_pipeline sample_host "rex" world_without)
             not_found).
    reflexivity.
  - apply (proj2 (first_failure_ends_pipeline sample_host "rex"
                    (world_with truncated_text))
             truncated_text
             (HostError "SyntaxError" "Unexpected end of JSON input")).
    + apply sample_reads.
    + vm_compute. reflexivity.
Defined.

(** C8. The response of either handler is a function of the outcome of
    reading the data file (and, on the detail endpoint, of the requested
    name), and a run leaves the files as they were: the same request run
    again, in any world where the read gives the same, gets the same
    response. *)
Theorem repeated_request_same_output host name w w' :
  files w' dinosaurs_path = files w dinosaurs_path →
  (Index.GET host w').2 = (Index.GET host w).2
  ∧ (Dinosaur.GET host name w').2 = (Dinosaur.GET host name w).2
  ∧ files (Index.GET host w).1 = files w
  ∧ files (Dinosaur.GET host name w).1 = files w.
Proof.
  intros Hsame.
  destruct (index_GET_runs host (files w dinosaurs_path))
    as (evs & data & Hindex).
  destruct (detail_GET_runs host name (files w dinosaurs_path))
    as (evs' & outcome & Hdetail).
  by rewrite (Hindex w eq_refl), (Hindex w' Hsame),
    (Hdetail w eq_refl), (Hdetail w' Hsame).
Qed.

Lemma repeated_request_same_output_witness :
  let w := world_with rex_amy_text in
  (Index.GET sample_host (Index.GET sample_host w).1).2
  = (Index.GET sample_host w).2
  ∧ (Dinosaur.GET sample_host "rex" (Index.GET sample_host w).1).2
    = (Dinosaur.GET sample_host "rex" w).2.
Proof.
  intros w.
  destruct (repeated_request_same_output sample_host "rex" w
              (Index.GET sample_host w).1) as (Hindex & Hdetail & _).
  - reflexivity.
  - by split.
Defined.

(** C9. On the detail endpoint a failure of [JSON.parse] is wrapped in a
    [FileReadError], like a failure of the read: the two errors carry the
    same tag, and no error of that module is tagged [ParseError]. *)
Theorem detail_parse_failure_tagged_FileReadError host text e w w' e' :
  JSON_parse host text = inl e →
  files w' dinosaurs_path = inl e' →
  ∃ parse_error read_error,
    (Dinosaur.parseDinos host text w).2 = Failure (Fail parse_error)
    ∧ (Dinosaur.readDinoFile w').2 = Failure (Fail read_error)
    ∧ parse_error = Dinosaur.FileReadError e
    ∧ Dinosaur._tag parse_error = "FileReadError"
    ∧ Dinosaur._tag read_error = Dinosaur._tag parse_error
    ∧ ∀ error, Dinosaur._tag error ≠ "ParseError".
Proof.
  intros Hparse Hread.
  exists (Dinosaur.FileReadError e), (Dinosaur.FileReadError e').
  unfold Dinosaur.parseDinos, Dinosaur.readDinoFile, Effect.tryPromise,
    Effect.try_, JSON_parse_call, Deno_readTextFile.
  rewrite Hparse, Hread. repeat split. by intros [].
Qed.

Lemma detail_parse_failure_tagged_FileReadError_witness :
  ∃ parse_error read_error,
    (Dinosaur.parseDinos sample_host truncated_text
       (world_with truncated_text)).2 = Failure (Fail parse_error)
    ∧ (Dinosaur.readDinoFile world_without).2 = Failure (Fail read_error)
    ∧ parse_error
      = Dinosaur.FileReadError
          (HostError "SyntaxError" "Unexpected end of JSON input")
    ∧ Dinosaur._tag parse_error = "FileReadError"
    ∧ Dinosaur._tag read_error = Dinosaur._tag parse_error
    ∧ ∀ error, Dinosaur._tag error ≠ "ParseError".
Proof.
  apply (detail_parse_failure_tagged_FileReadError sample_host truncated_text
           (HostError "SyntaxError" "Unexpected end of JSON input")
           (world_with truncated_text) world_without not_found).
  - vm_compute. reflexivity.
  - reflexivity.
Defined.

(** C10. A file that parses to the empty array passes the validation, the
    program of the list endpoint succeeds with the empty array, and the
    response is the one the handler gives after any failure it catches. *)
Theorem empty_array_is_valid host w text :
  files w dinosaurs_path = inr text →
  JSON_parse host text = inr (JArray []) →
  (Effect.suspend (Index.validateDinoArray (JArray [])) w).2
  = Success (JArray [])
  ∧ (Index.program host w).2 = Success (JArray [])
  ∧ (Index.GET host w).2 = Render (JArray [])
  ∧ ∀ w' error,
      (Index.program host w').2 = Failure (Fail error) →
      (Index.GET host w').2 = (Index.GET host w).2.
Proof.
  intros Hread Hparse.
  assert (Hget : (Index.GET host w).2 = Render (JArray [])).
  { by rewrite (index_GET_valid _ _ _ _ Hread Hparse (Forall_nil_2 _)). }
  repeat split.
  - by rewrite (index_parsed _ _ _ _ Hread Hparse).
  - exact Hget.
  - intros w' error Hfail. rewrite Hget.
    destruct (Index.program host w') as [w'' exit] eqn:Hrun.
    simpl in Hfail. subst exit.
    by rewrite (index_GET_failure _ _ _ _ Hrun).
Qed.

Lemma empty_array_is_valid_witness :
  (Index.program sample_host (world_with "[]")).2 = Success (JArray [])
  ∧ (Index.GET sample_host (world_with "[]")).2
    = (Index.GET sample_host world_without).2.
Proof.
  destruct (empty_array_is_valid sample_host (world_with "[]") "[]")
    as (_ & Hprogram & _ & Hsame).
  - apply sample_reads.
  - vm_compute. reflexivity.
  - split; [exact Hprogram|].
    symmetry. apply (Hsame world_without (Index.FileReadError not_found)).
    reflexivity.
Defined.

Lemma validateDinoArray_accepts_exactly_records_witness :
  (Effect.suspend (Index.validateDinoArray (JArray rex_amy))
     (world_with rex_amy_text)).2 = Success (JArray rex_amy)
  ∧ (Effect.suspend (Index.validateDinoArray (JObject ∅))
       (world_with "{}")).2
    = Failure (Fail (Index.DataFormatError Index.not_an_array)).
Proof.
  split.
  - destruct (validateDinoArray_accepts_exactly_records (JArray rex_amy)
                (world_with rex_amy_text)) as (Hiff & Hvalue & _).
    apply Hvalue, Hiff. exists rex_amy. split; [reflexivity|].
    exact rex_amy_records.
  - destruct (validateDinoArray_accepts_exactly_records (JObject ∅)
                (world_with "{}")) as (_ & _ & Hno & _).
    apply Hno. discriminate.
Defined.

(** ** Further properties of the two endpoints *)

Lemma named_or_not d : (∃ s, name_of d = Some s) ∨ name_of d = None.
Proof. destruct (name_of d); eauto. Qed.

Lemma matches_or_not host name d :
  matches host name d ∨ ¬ matches host name d.
Proof.
  destruct (name_of d) as [s|] eqn:Hs.
  - destruct (decide (toLowerCase host s = toLowerCase host name)) as [Heq|Hne].
    + left. by exists s.
    + right. intros (s' & Hs' & Heq). congruence.
  - right. intros (s' & Hs' & _). congruence.
Qed.

(** A sequence with a match splits at its first match. *)
Lemma first_match_split host name items :
  Exists (matches host name) items →
  ∃ pre d post,
    items = pre ++ d :: post
    ∧ Forall (λ x, ¬ matches host name x) pre
    ∧ matches host name d.
Proof.
  induction 1 as [x rest Hx|x rest _ IH].
  - by exists [], x, rest.
  - destruct (matches_or_not host name x) as [Hx|Hx].
    + by exists [], x, rest.
    + destruct IH as (pre & d & post & -> & Hpre & Hd).
      exists (x :: pre), d, post. by repeat split; [constructor|].
Qed.

(** The scan throws at the first element without a string name, unless a
    match came before. *)
Lemma find_loop_unnamed host name pre d post w :
  Forall (λ x, is_Some (name_of x)) pre →
  Forall (λ x, ¬ matches host name x) pre →
  name_of d = None →
  find_loop (Dinosaur.same_name host name) (pre ++ d :: post) w
  = (appends (scan name pre) w, inl TypeError).
Proof.
  intros Hnamed Hnone Hd. revert w.
  induction Hnamed as [|x pre [s Hs] _ IH]; intros w;
    cbn [app find_loop]; unfold js_bind.
  - by rewrite (same_name_nameless _ _ _ _ Hd), appends_nil.
  - apply Forall_cons in Hnone as [Hx Hnone].
    rewrite (same_name_named _ _ _ _ _ Hs).
    rewrite bool_decide_eq_false_2.
    2:{ intros Heq. apply Hx. by exists s. }
    rewrite (IH Hnone), appends_appends.
    by rewrite (scan_cons _ x), (scan_named _ _ _ Hs).
Qed.

(** Whatever the array holds, what the scan returns is [undefined] or an
    element that matches, and all it calls is [toLowerCase]. *)
Lemma find_loop_sound host name items :
  ∃ evs r,
    (∀ w, find_loop (Dinosaur.same_name host name) items w
          = (appends evs w, r))
    ∧ Forall (λ ev, ¬ is_read ev ∧ ¬ is_log ev) evs
    ∧ (∀ v, r = inr v → v = JUndefined ∨ (v ∈ items ∧ matches host name v))
    ∧ (∀ e, r = inl e → e = TypeError).
Proof.
  induction items as [|x rest (evs & r & IH & Hevs & Hsound & Hthrow)];
    cbn [find_loop].
  - exists [], (inr JUndefined). split; [|split; [constructor|split]].
    + intros w. by rewrite appends_nil.
    + intros v [= <-]. by left.
    + discriminate.
  - unfold js_bind. destruct (name_of x) as [s|] eqn:Hname.
    + destruct (bool_decide (toLowerCase host s = toLowerCase host name))
        eqn:Hcmp.
      * do 2 eexists. split; [|split; [|split]].
        -- intros w. by rewrite (same_name_named _ _ _ _ _ Hname), Hcmp.
        -- repeat constructor; by intros [].
        -- intros v [= <-]. right. split; [by left|].
           exists s. split; [done|]. by apply bool_decide_eq_true in Hcmp.
        -- discriminate.
      * do 2 eexists. split; [|split; [|split]].
        -- intros w.
           by rewrite (same_name_named _ _ _ _ _ Hname), Hcmp, IH,
             appends_appends.
        -- apply Forall_app. split; [|exact Hevs].
           repeat constructor; by intros [].
        -- intros v Hv. destruct (Hsound v Hv) as [->|[Hin Hm]];
             [by left|]. right. split; [by right|done].
        -- exact Hthrow.
    + exists [], (inl TypeError). split; [|split; [constructor|split]].
      * intros w.
        by rewrite (same_name_nameless _ _ _ _ Hname), appends_nil.
      * discriminate.
      * by intros e [= <-].
Qed.

(** [yield* findDino(name)(dinos)] on an array, from what the scan gives. *)
Lemma findDino_array host name items w :
  Effect.suspend (Dinosaur.findDino host name (JArray items)) w
  = match find_loop (Dinosaur.same_name host name) items
            (appends [CallFind (JArray items)] w) with
    | (w', inl e) => (w', Failure (Die e))
    | (w', inr found) =>
        (w', match found with
             | JUndefined | JNull =>
                 Failure (Fail (Dinosaur.DinoNotFoundError name))
             | _ => Success found
             end)
    end.
Proof.
  unfold Effect.suspend, Dinosaur.findDino, js_bind, call_find.
  rewrite record_appends.
  destruct (find_loop _ _ _) as [w' [e|found]]; [done|].
  by destruct found.
Qed.

Lemma matches_object host name d :
  matches host name d →
  ∃ props s, d = JObject props ∧ props !! "name" = Some (JString s)
             ∧ toLowerCase host s = toLowerCase host name.
Proof.
  intros (s & Hs & Heq). destruct d as [| | | | | |props]; try discriminate.
  simpl in Hs. exists props, s.
  by destruct (props !! "name") as [[| | | |s'| |]|]; simplify_eq.
Qed.

(** The detail endpoint on an array, in full: what it does after the
    parse is fixed by the scan. *)
Lemma detail_GET_array host name w text items :
  files w dinosaurs_path = inr text →
  JSON_parse host text = inr (JArray items) →
  ∃ evs r,
    (∀ w', find_loop (Dinosaur.same_name host name) items w'
           = (appends evs w', r))
    ∧ Dinosaur.GET host name w
      = match r with
        | inl e =>
            (appends ([CallReadTextFile dinosaurs_path; CallJSONParse text;
                       CallFind (JArray items)] ++ evs) w,
             Throws (Die e))
        | inr (JUndefined | JNull) =>
            (appends ([CallReadTextFile dinosaurs_path; CallJSONParse text;
                       CallFind (JArray items)] ++ evs
                      ++ [detail_log (Dinosaur.DinoNotFoundError name)]) w,
             Render JNull)
        | inr found =>
            (appends ([CallReadTextFile dinosaurs_path; CallJSONParse text;
                       CallFind (JArray items)] ++ evs) w,
             Render found)
        end.
Proof.
  intros Hread Hparse.
  destruct (find_loop_sound host name items) as (evs & r & Hrun & _).
  exists evs, r. split; [exact Hrun|].
  pose proof (detail_parsed host name w text _ Hread Hparse) as Hprogram.
  rewrite findDino_array, Hrun, !appends_appends in Hprogram.
  destruct r as [e|found].
  - by rewrite (detail_GET_defect _ _ _ _ _ Hprogram).
  - destruct found;
      first [ by rewrite (detail_GET_failure _ _ _ _ _ Hprogram),
                appends_appends, <- !app_assoc
            | by rewrite (detail_GET_success _ _ _ _ _ Hprogram) ].
Qed.

(** The list endpoint always renders an array of records. *)
Lemma index_GET_records host w :
  ∃ items,
    (Index.GET host w).2 = Render (JArray items)
    ∧ Forall is_DinoData items.
Proof.
  destruct (files w dinosaurs_path) as [e|text] eqn:Hread.
  { exists []. by rewrite (index_GET_no_file _ _ _ Hread). }
  destruct (JSON_parse host text) as [e|v] eqn:Hparse.
  { exists []. by rewrite (index_GET_malformed _ _ _ _ Hread Hparse). }
  destruct (array_or_not v) as [Hno|[items ->]].
  { exists []. by rewrite (index_GET_not_array _ _ _ _ Hread Hparse Hno). }
  destruct (all_DinoData_dec items) as [Hok|Hbad].
  - exists items. by rewrite (index_GET_valid _ _ _ _ Hread Hparse Hok).
  - exists []. by rewrite (index_GET_invalid _ _ _ _ Hread Hparse Hbad).
Qed.

(** X1. Whatever the file system and the parser give, the list endpoint
    returns a response, and what it hands to the page is an array whose
    elements are all records. *)
Theorem list_endpoint_renders_records host w :
  ∃ items,
    (Index.GET host w).2 = Render (JArray items)
    ∧ Forall is_DinoData items.
Proof. apply index_GET_records. Qed.

(** X2. The list endpoint calls [console.error] exactly when the file is
    not an array of records: a logged run is a fallback, and an empty list
    rendered without a log is the content of the file. *)
Theorem list_endpoint_logs_iff_fallback host w :
  ∃ evs data,
    Index.GET host w = (appends evs w, Render data)
    ∧ (Exists is_log evs ↔ ¬ well_formed host w).
Proof.
  destruct (files w dinosaurs_path) as [e|text] eqn:Hread.
  { do 2 eexists. split; [by apply index_GET_no_file|]. split.
    - intros _ (text & items & Htext & _). congruence.
    - intros _. by apply Exists_cons_tl, Exists_cons_hd. }
  destruct (JSON_parse host text) as [e|v] eqn:Hparse.
  { do 2 eexists. split; [by eapply index_GET_malformed|]. split.
    - intros _ (text' & items & Htext & Hv & _). congruence.
    - intros _. by do 2 apply Exists_cons_tl; apply Exists_cons_hd. }
  destruct (array_or_not v) as [Hno|[items ->]].
  { do 2 eexists. split; [by eapply index_GET_not_array|]. split.
    - intros _ (text' & items & Htext & Hv & _).
      apply (Hno items). congruence.
    - intros _. by do 3 apply Exists_cons_tl; apply Exists_cons_hd. }
  destruct (all_DinoData_dec items) as [Hok|Hbad].
  - do 2 eexists. split; [by eapply index_GET_valid|]. split.
    + intros Hlog. exfalso.
      repeat (apply Exists_cons in Hlog as [[]|Hlog]).
      by apply Exists_nil in Hlog.
    + intros Hnot. destruct Hnot. by exists text, items.
  - do 2 eexists. split; [by eapply index_GET_invalid|]. split.
    + intros _ (text' & items' & Htext & Hv & Hok).
      apply Hbad. congruence.
    + intros _. by do 4 apply Exists_cons_tl; apply Exists_cons_hd.
Qed.

(** X3. On the detail endpoint, a file that parses to anything but an
    array makes the handler reject with a [TypeError]: [catchAll] is not
    reached, nothing is logged and nothing is rendered. *)
Theorem detail_rejects_non_array host name w text v :
  files w dinosaurs_path = inr text →
  JSON_parse host text = inr v →
  (∀ items, v ≠ JArray items) →
  Dinosaur.GET host name w
  = (appends [CallReadTextFile dinosaurs_path; CallJSONParse text] w,
     Throws (Die TypeError)).
Proof. apply detail_GET_not_array. Qed.

Lemma detail_rejects_non_array_witness :
  Dinosaur.GET sample_host "rex" (world_with "{}")
  = (appends [CallReadTextFile dinosaurs_path; CallJSONParse "{}"]
       (world_with "{}"),
     Throws (Die TypeError)).
Proof.
  apply (detail_rejects_non_array sample_host "rex" (world_with "{}") "{}"
           (JObject ∅)).
  - apply sample_reads.
  - vm_compute. reflexivity.
  - discriminate.
Defined.

(** X4. On the detail endpoint, when the scan meets an element without a
    string [name] before any match, the handler rejects with a
    [TypeError], whatever follows that element. *)
Theorem detail_rejects_unnamed_element host name w text pre d post :
  files w dinosaurs_path = inr text →
  JSON_parse host text = inr (JArray (pre ++ d :: post)) →
  Forall (λ x, is_Some (name_of x)) pre →
  Forall (λ x, ¬ matches host name x) pre →
  name_of d = None →
  Dinosaur.GET host name w
  = (appends ([CallReadTextFile dinosaurs_path; CallJSONParse text;
               CallFind (JArray (pre ++ d :: post))] ++ scan name pre) w,
     Throws (Die TypeError)).
Proof.
  intros Hread Hparse Hnamed Hnone Hd. apply detail_GET_defect.
  rewrite (detail_parsed _ _ _ _ _ Hread Hparse), findDino_array.
  by rewrite (find_loop_unnamed _ _ _ _ _ _ Hnamed Hnone Hd),
    !appends_appends.
Qed.

Lemma rex_is_not_amy_lower : ¬ matches sample_host "amy" (dino "Rex" "D1").
Proof.
  intros (s & Hs & Heq). vm_compute in Hs. injection Hs as <-.
  vm_compute in Heq. discriminate.
Defined.

Lemma rex_named : is_Some (name_of (dino "Rex" "D1")).
Proof. exists "Rex". vm_compute. reflexivity. Defined.

Lemma detail_rejects_unnamed_element_witness :
  (Dinosaur.GET sample_host "amy" (world_with nameless_text)).2
  = Throws (Die TypeError).
Proof.
  rewrite (detail_rejects_unnamed_element sample_host "amy"
             (world_with nameless_text) nameless_text
             [dino "Rex" "D1"]
             (JObject (<["description" := JString "D2"]> ∅)) []).
  - reflexivity.
  - apply sample_reads.
  - vm_compute. reflexivity.
  - constructor; [exact rex_named | constructor].
  - constructor; [exact rex_is_not_amy_lower | constructor].
  - vm_compute. reflexivity.
Defined.

(** The detail endpoint on an array with a match: the run up to the first
    match. *)
Lemma detail_GET_first_match host name w text pre d post :
  files w dinosaurs_path = inr text →
  JSON_parse host text = inr (JArray (pre ++ d :: post)) →
  Forall (λ x, is_Some (name_of x)) pre →
  Forall (λ x, ¬ matches host name x) pre →
  matches host name d →
  Dinosaur.GET host name w
  = (appends ([CallReadTextFile dinosaurs_path; CallJSONParse text;
               CallFind (JArray (pre ++ d :: post))]
              ++ scan name (pre ++ [d])) w,
     Render d).
Proof.
  intros Hread Hparse Hnamed Hnone Hd.
  erewrite detail_GET_success.
  2:{ rewrite (detail_parsed _ _ _ _ _ Hread Hparse).
      by apply findDino_first. }
  by rewrite appends_appends.
Qed.

(** X5. The detail endpoint stops at the first element whose name matches
    and renders it as it is: the elements after it are never looked at,
    whatever their shape, and the match needs no [description]. *)
Theorem detail_stops_at_first_match host name w text pre d post :
  files w dinosaurs_path = inr text →
  JSON_parse host text = inr (JArray (pre ++ d :: post)) →
  Forall (λ x, is_Some (name_of x)) pre →
  Forall (λ x, ¬ matches host name x) pre →
  matches host name d →
  Dinosaur.GET host name w
  = (appends ([CallReadTextFile dinosaurs_path; CallJSONParse text;
               CallFind (JArray (pre ++ d :: post))]
              ++ scan name (pre ++ [d])) w,
     Render d).
Proof. apply detail_GET_first_match. Qed.

Lemma rex_is_REX : matches sample_host "REX" (dino "Rex" "D1").
Proof. exists "Rex". split; vm_compute; reflexivity. Defined.

Lemma detail_stops_at_first_match_witness :
  (Dinosaur.GET sample_host "REX" (world_with nameless_text)).2
  = Render (dino "Rex" "D1").
Proof.
  rewrite (detail_stops_at_first_match sample_host "REX"
             (world_with nameless_text) nameless_text
             [] (dino "Rex" "D1")
             [JObject (<["description" := JString "D2"]> ∅)]).
  - reflexivity.
  - apply sample_reads.
  - vm_compute. reflexivity.
  - constructor.
  - constructor.
  - exact rex_is_REX.
Defined.

(** Where a rendered value of the detail endpoint comes from. *)
Lemma detail_GET_sound host name w data :
  (Dinosaur.GET host name w).2 = Render data →
  data = JNull
  ∨ ∃ text items,
      files w dinosaurs_path = inr text
      ∧ JSON_parse host text = inr (JArray items)
      ∧ data ∈ items
      ∧ matches host name data.
Proof.
  intros Hget.
  destruct (files w dinosaurs_path) as [e|text] eqn:Hread.
  { rewrite (detail_GET_no_file _ _ _ _ Hread) in Hget.
    left. by injection Hget. }
  destruct (JSON_parse host text) as [e|v] eqn:Hparse.
  { rewrite (detail_GET_malformed _ _ _ _ _ Hread Hparse) in Hget.
    left. by injection Hget. }
  destruct (array_or_not v) as [Hno|[items ->]].
  { by rewrite (detail_GET_not_array _ _ _ _ _ Hread Hparse Hno) in Hget. }
  destruct (detail_GET_array host name w text items Hread Hparse)
    as (evs & r & Hrun & Hshape).
  destruct (find_loop_sound host name items)
    as (evs' & r' & Hrun' & _ & Hsound & _).
  assert (r' = r) as ->.
  { specialize (Hrun w). rewrite Hrun' in Hrun. by injection Hrun. }
  rewrite Hshape in Hget. destruct r as [e|found]; [done|].
  destruct (Hsound found eq_refl) as [->|[Hin Hm]].
  { left. by injection Hget. }
  destruct (matches_object _ _ _ Hm) as (props & s & -> & _).
  injection Hget as <-. right. by exists text, items.
Qed.

(** X6. What the detail endpoint renders is [null] or an element of the
    array in the file whose name is the requested one, letter case apart:
    it never shows a record under a name it does not carry. *)
Theorem detail_renders_only_matches host name w data :
  (Dinosaur.GET host name w).2 = Render data →
  data = JNull
  ∨ ∃ text items,
      files w dinosaurs_path = inr text
      ∧ JSON_parse host text = inr (JArray items)
      ∧ data ∈ items
      ∧ matches host name data.
Proof. apply detail_GET_sound. Qed.

Lemma detail_renders_only_matches_witness :
  dino "Rex" "D1" = JNull
  ∨ ∃ text items,
      files (world_with rex_amy_text) dinosaurs_path = inr text
      ∧ JSON_parse sample_host text = inr (JArray items)
      ∧ dino "Rex" "D1" ∈ items
      ∧ matches sample_host "rex" (dino "Rex" "D1").
Proof.
  apply (detail_renders_only_matches sample_host "rex"
           (world_with rex_amy_text) (dino "Rex" "D1")).
  vm_compute. reflexivity.
Defined.

(** X7. When every element of the array has a string [name], the detail
    endpoint renders [null] exactly when no element carries the requested
    name, and then its last call logs a [DinoNotFoundError] with that
    name. *)
Theorem detail_not_found_iff_no_match host name w text items :
  files w dinosaurs_path = inr text →
  JSON_parse host text = inr (JArray items) →
  Forall (λ x, is_Some (name_of x)) items →
  ((Dinosaur.GET host name w).2 = Render JNull
   ↔ Forall (λ x, ¬ matches host name x) items)
  ∧ (Forall (λ x, ¬ matches host name x) items →
     Dinosaur.GET host name w
     = (appends ([CallReadTextFile dinosaurs_path; CallJSONParse text;
                  CallFind (JArray items)] ++ scan name items
                 ++ [detail_log (Dinosaur.DinoNotFoundError name)]) w,
        Render JNull)).
Proof.
  intros Hread Hparse Hnamed.
  assert (Hnone : Forall (λ x, ¬ matches host name x) items →
    Dinosaur.GET host name w
    = (appends ([CallReadTextFile dinosaurs_path; CallJSONParse text;
                 CallFind (JArray items)] ++ scan name items
                ++ [detail_log (Dinosaur.DinoNotFoundError name)]) w,
       Render JNull)).
  { intros Hno. erewrite detail_GET_failure.
    2:{ rewrite (detail_parsed _ _ _ _ _ Hread Hparse).
        by apply findDino_none. }
    by rewrite !appends_appends. }
  split; [|exact Hnone]. split.
  - intros Hnull. apply Forall_forall. intros x Hx Hm.
    destruct (first_match_split host name items) as
      (pre & d & post & -> & Hpre & Hd).
    { apply Exists_exists. eauto. }
    apply Forall_app in Hnamed as [Hnamed _].
    rewrite (detail_GET_first_match _ _ _ _ _ _ _
               Hread Hparse Hnamed Hpre Hd) in Hnull.
    destruct (matches_object _ _ _ Hd) as (props & s & -> & _).
    discriminate.
  - intros Hno. by rewrite (Hnone Hno).
Qed.

Lemma nothing_is_zzz :
  Forall (λ x, ¬ matches sample_host "zzz" x) rex_amy.
Proof.
  repeat constructor; intros (s & Hs & Heq); vm_compute in Hs;
    injection Hs as <-; vm_compute in Heq; discriminate.
Defined.

Lemma rex_amy_named : Forall (λ x, is_Some (name_of x)) rex_amy.
Proof.
  repeat constructor; eexists; vm_compute; reflexivity.
Defined.

Lemma detail_not_found_iff_no_match_witness :
  (Dinosaur.GET sample_host "zzz" (world_with rex_amy_text)).2 = Render JNull
  ∧ List.last (trace (Dinosaur.GET sample_host "zzz"
                        (world_with rex_amy_text)).1)
      (CallFind JNull)
    = detail_log (Dinosaur.DinoNotFoundError "zzz").
Proof.
  destruct (detail_not_found_iff_no_match sample_host "zzz"
              (world_with rex_amy_text) rex_amy_text rex_amy)
    as [Hiff Hlog].
  - apply sample_reads.
  - vm_compute. reflexivity.
  - exact rex_amy_named.
  - split.
    + apply Hiff. exact nothing_is_zzz.
    + rewrite (Hlog nothing_is_zzz). vm_compute. reflexivity.
Defined.

(** X8. Each request reads [data/dinosaurs.json] first and reads nothing
    after that: one read per request on both endpoints, so nothing is kept
    from one request to the next. *)
Theorem request_reads_the_file_once host name w :
  ∃ evs evs' outcome outcome',
    Index.GET host w
    = (appends (CallReadTextFile dinosaurs_path :: evs) w, outcome)
    ∧ Dinosaur.GET host name w
      = (appends (CallReadTextFile dinosaurs_path :: evs') w, outcome')
    ∧ Forall (λ ev, ¬ is_read ev) (evs ++ evs').
Proof.
  assert (Hindex : ∃ evs outcome,
    Index.GET host w
    = (appends (CallReadTextFile dinosaurs_path :: evs) w, outcome)
    ∧ Forall (λ ev, ¬ is_read ev) evs).
  { destruct (files w dinosaurs_path) as [e|text] eqn:Hread.
    { do 2 eexists. split; [by apply index_GET_no_file|].
      repeat constructor; by intros []. }
    destruct (JSON_parse host text) as [e|v] eqn:Hparse.
    { do 2 eexists. split; [by eapply index_GET_malformed|].
      repeat constructor; by intros []. }
    destruct (array_or_not v) as [Hno|[items ->]].
    { do 2 eexists. split; [by eapply index_GET_not_array|].
      repeat constructor; by intros []. }
    destruct (all_DinoData_dec items) as [Hok|Hbad].
    - do 2 eexists. split; [by eapply index_GET_valid|].
      repeat constructor; by intros [].
    - do 2 eexists. split; [by eapply index_GET_invalid|].
      repeat constructor; by intros []. }
  assert (Hdetail : ∃ evs outcome,
    Dinosaur.GET host name w
    = (appends (CallReadTextFile dinosaurs_path :: evs) w, outcome)
    ∧ Forall (λ ev, ¬ is_read ev) evs).
  { destruct (files w dinosaurs_path) as [e|text] eqn:Hread.
    { do 2 eexists. split; [by apply detail_GET_no_file|].
      repeat constructor; by intros []. }
    destruct (JSON_parse host text) as [e|v] eqn:Hparse.
    { do 2 eexists. split; [by eapply detail_GET_malformed|].
      repeat constructor; by intros []. }
    destruct (array_or_not v) as [Hno|[items ->]].
    { do 2 eexists. split; [by eapply detail_GET_not_array|].
      repeat constructor; by intros []. }
    destruct (detail_GET_array host name w text items Hread Hparse)
      as (evs & r & Hrun & Hshape).
    destruct (find_loop_sound host name items)
      as (evs' & r' & Hrun' & Hevs & _).
    assert (evs' = evs) as ->.
    { specialize (Hrun w). rewrite Hrun' in Hrun.
      injection Hrun as Htrace _. by apply app_inv_head in Htrace. }
    assert (Hquiet : Forall (λ ev, ¬ is_read ev) evs).
    { eapply Forall_impl; [exact Hevs|]. by intros ev [? _]. }
    rewrite Hshape.
    destruct r as [e|[]]; do 2 eexists; (split; [reflexivity|]);
      repeat (apply Forall_cons; split; [by intros []|]);
      rewrite ?Forall_app; repeat split; try done;
      repeat constructor; by intros []. }
  destruct Hindex as (evs & outcome & -> & Hevs).
  destruct Hdetail as (evs' & outcome' & -> & Hevs').
  exists evs, evs', outcome, outcome'. repeat split.
  apply Forall_app. by split.
Qed.

(** ** The page components *)

Lemma Home_item_named host d s :
  name_of d = Some s →
  Home_item host d
  = inr (Element "li" [("key", JString s); class "my-2"]
           [Element "a" (link_to host s).1 (link_to host s).2]).
Proof.
  intros Hname. destruct d as [| | | | | |props]; try discriminate.
  simpl in Hname. unfold Home_item, js_get.
  by destruct (props !! "name") as [[| | | |s'| |]|]; simplify_eq.
Qed.

Lemma Home_item_unnamed host d :
  name_of d = None → Home_item host d = inl TypeError.
Proof.
  intros Hname. destruct d as [| | | | | |props]; try reflexivity.
  simpl in Hname. unfold Home_item, js_get.
  by destruct (props !! "name") as [[| | | |s'| |]|]; simplify_eq.
Qed.

Lemma names_of_named items :
  Forall (λ x, is_Some (name_of x)) items →
  ∃ names, Forall2 (λ d s, name_of d = Some s) items names.
Proof.
  induction 1 as [|x rest [s Hs] _ [names IH]].
  - by exists [].
  - exists (s :: names). by constructor.
Qed.

Lemma map_loop_named host items names :
  Forall2 (λ d s, name_of d = Some s) items names →
  map_loop (Home_item host) items
  = inr (map (λ s, Element "li" [("key", JString s); class "my-2"]
                     [Element "a" (link_to host s).1 (link_to host s).2])
           names).
Proof.
  induction 1 as [|d s items names Hs _ IH]; [done|].
  cbn [map_loop map]. by rewrite (Home_item_named _ _ _ Hs), IH.
Qed.

Lemma map_loop_unnamed host items :
  ¬ Forall (λ x, is_Some (name_of x)) items →
  map_loop (Home_item host) items = inl TypeError.
Proof.
  induction items as [|d rest IH]; intros Hbad.
  - by destruct Hbad.
  - cbn [map_loop]. destruct (named_or_not d) as [[s Hs]|Hd].
    + rewrite (Home_item_named _ _ _ Hs). cbn [throwing_bind].
      rewrite IH; [done|]. intros Hrest. apply Hbad.
      constructor; [by exists s|done].
    + by rewrite (Home_item_unnamed _ _ Hd).
Qed.

Lemma elements_items host type names :
  flat_map (elements type)
    (map (λ s, Element "li" [("key", JString s); class "my-2"]
                 [Element "a" (link_to host s).1 (link_to host s).2])
       names)
  = if bool_decide (type = "a") then map (link_to host) names
    else if bool_decide (type = "li")
         then map (λ s, ([("key", JString s); class "my-2"],
                         [Element "a" (link_to host s).1 (link_to host s).2]))
                names
         else [].
Proof.
  induction names as [|s names IH]; [by repeat case_bool_decide|].
  cbn [map flat_map]. rewrite IH. cbn [elements flat_map].
  repeat case_bool_decide; by simplify_eq.
Qed.

(** [Home] on an array whose elements all have a string [name]. *)
Lemma Home_named host items names :
  Forall2 (λ d s, name_of d = Some s) items names →
  ∃ page,
    Home host (JArray items) = inr page
    ∧ elements "a" page = map (link_to host) names
    ∧ length (elements "li" page) = length items.
Proof.
  intros Hnames. unfold Home.
  rewrite (map_loop_named _ _ _ Hnames). cbn [throwing_bind].
  eexists. split; [reflexivity|].
  cbn [elements flat_map]. rewrite !app_nil_r, !elements_items.
  repeat case_bool_decide; simplify_eq. simpl.
  split; [done|]. rewrite length_map. symmetry.
  by eapply Forall2_length.
Qed.

(** X9. The list page shows whatever the list endpoint hands over without
    throwing: one link per record, in the order of the file, whose target
    is the lower-cased name and whose label is the name. *)
Theorem Home_shows_the_list host w :
  ∃ items names page,
    (Index.GET host w).2 = Render (JArray items)
    ∧ Forall2 (λ d s, name_of d = Some s) items names
    ∧ Home host (JArray items) = inr page
    ∧ elements "a" page = map (link_to host) names
    ∧ length (elements "li" page) = length items.
Proof.
  destruct (index_GET_records host w) as (items & Hget & Hok).
  destruct (names_of_named items) as [names Hnames].
  { eapply Forall_impl; [exact Hok|]. apply DinoData_named. }
  destruct (Home_named host items names Hnames) as (page & Hpage & Ha & Hli).
  by exists items, names, page.
Qed.

(** X10. [Home] reads nothing but the names. On an array it builds the
    page when every element has a string [name], whatever else the
    elements hold, and throws a [TypeError] otherwise; for data that is
    not an array it builds the page with an empty list. *)
Theorem Home_needs_names_only host data :
  (∀ items, data = JArray items →
     Forall (λ x, is_Some (name_of x)) items →
     ∃ page, Home host data = inr page
             ∧ length (elements "li" page) = length items)
  ∧ (∀ items, data = JArray items →
       ¬ Forall (λ x, is_Some (name_of x)) items →
       Home host data = inl TypeError)
  ∧ ((∀ items, data ≠ JArray items) →
     ∃ page, Home host data = inr page ∧ elements "li" page = []).
Proof.
  repeat split.
  - intros items -> Hnamed.
    destruct (names_of_named items Hnamed) as [names Hnames].
    destruct (Home_named host items names Hnames) as (page & Hpage & _ & Hli).
    by exists page.
  - intros items -> Hbad. unfold Home.
    by rewrite (map_loop_unnamed _ _ Hbad).
  - intros Hno. destruct data; try (by eexists); by destruct (Hno items).
Qed.

Lemma bare_named name : is_Some (name_of (bare name)).
Proof.
  exists name. unfold bare, name_of. by rewrite lookup_insert_eq.
Defined.

Lemma Home_needs_names_only_witness :
  (∃ page, Home sample_host (JArray [bare "Rex"]) = inr page
           ∧ length (elements "li" page) = 1)
  ∧ Home sample_host (JArray nameless) = inl TypeError
  ∧ ∃ page, Home sample_host JNull = inr page ∧ elements "li" page = [].
Proof.
  split; [|split].
  - apply (proj1 (Home_needs_names_only sample_host (JArray [bare "Rex"]))
             [bare "Rex"] eq_refl).
    constructor; [apply bare_named | constructor].
  - apply (proj1 (proj2 (Home_needs_names_only sample_host (JArray nameless)))
             nameless eq_refl).
    intros Hall. apply Forall_cons in Hall as [_ Hall].
    apply Forall_cons in Hall as [[s Hs] _].
    vm_compute in Hs. discriminate.
  - apply (proj2 (proj2 (Home_needs_names_only sample_host JNull))).
    discriminate.
Defined.







(** X12. The detail page shows whatever the detail endpoint hands over
    without throwing. For [null] it is the heading "Dinosaur not found";
    otherwise it is the page of a record, and the name in its heading is
    the requested name, letter case apart. *)
Theorem DinoPage_shows_match_or_not_found host name w data :
  (Dinosaur.GET host name w).2 = Render data →
  (data = JNull
   ∧ DinoPage data = inr (Element "h1" [] [Text "Dinosaur not found"]))
  ∨ (∃ s page,
       DinoPage data = inr page
       ∧ elements "h1" page
         = [([class "text-2xl font-bold mb-4"], [Value (JString s)])]
       ∧ toLowerCase host s = toLowerCase host name).
Proof.
  intros Hget.
  destruct (detail_GET_sound _ _ _ _ Hget)
    as [->|(text & items & _ & _ & _ & Hm)]; [by left|].
  destruct (matches_object _ _ _ Hm) as (props & s & -> & Hs & Heq).
  right. exists s. eexists. unfold DinoPage, js_get. simpl. rewrite Hs.
  by split; [reflexivity|].
Qed.

Lemma DinoPage_shows_match_or_not_found_witness :
  (DinoPage JNull = inr (Element "h1" [] [Text "Dinosaur not found"]))
  ∧ ∃ s page,
      DinoPage (dino "Rex" "D1") = inr page
      ∧ elements "h1" page
        = [([class "text-2xl font-bold mb-4"], [Value (JString s)])]
      ∧ lower s = lower "REX".
Proof.
  split.
  - destruct (DinoPage_shows_match_or_not_found sample_host "zzz"
                (world_with rex_amy_text) JNull) as [[_ Hpage]|Hrecord].
    + vm_compute. reflexivity.
    + exact Hpage.
    + reflexivity.
  - destruct (DinoPage_shows_match_or_not_found sample_host "REX"
                (world_with rex_amy_text) (dino "Rex" "D1"))
      as [[Hnull _]|Hrecord].
    + vm_compute. reflexivity.
    + discriminate.
    + exact Hrecord.
Defined.

(** X13. The two endpoints do not accept the same files. A record with a
    name and no string [description] is served by the detail endpoint,
    while the list endpoint, which validates, renders the empty list for
    the whole file. *)
Theorem endpoints_disagree_without_description
    host name w text pre d post :
  files w dinosaurs_path = inr text →
  JSON_parse host text = inr (JArray (pre ++ d :: post)) →
  Forall (λ x, is_Some (name_of x)) pre →
  Forall (λ x, ¬ matches host name x) pre →
  matches host name d →
  ¬ has_string_field "description" d →
  (Dinosaur.GET host name w).2 = Render d
  ∧ (Index.GET host w).2 = Render (JArray []).
Proof.
  intros Hread Hparse Hnamed Hnone Hd Hnodesc. split.
  - by rewrite (detail_GET_first_match _ _ _ _ _ _ _
                  Hread Hparse Hnamed Hnone Hd).
  - rewrite (index_GET_invalid _ _ _ _ Hread Hparse); [done|].
    intros Hall. apply Forall_app in Hall as [_ Hall].
    apply Forall_cons in Hall as [[_ Hdesc] _]. by apply Hnodesc.
Qed.

Lemma bare_has_no_description name :
  ¬ has_string_field "description" (bare name).
Proof.
  intros (props & s & Heq & Hs). injection Heq as <-.
  by rewrite lookup_insert_ne, lookup_empty in Hs.
Defined.

Lemma bare_rex_is_rex : matches bare_host "rex" (bare "Rex").
Proof. exists "Rex". split; vm_compute; reflexivity. Defined.

Lemma endpoints_disagree_without_description_witness :
  (Dinosaur.GET bare_host "rex" (world_with bare_text)).2 = Render (bare "Rex")
  ∧ (Index.GET bare_host (world_with bare_text)).2 = Render (JArray []).
Proof.
  apply (endpoints_disagree_without_description bare_host "rex"
           (world_with bare_text) bare_text [] (bare "Rex") []).
  - apply sample_reads.
  - vm_compute. reflexivity.
  - constructor.
  - constructor.
  - exact bare_rex_is_rex.
  - apply bare_has_no_description.
Defined.
